(** * Tree support: a shallow embedding of [src/TreeSupport.cpp]

    The development follows the source file function by function:
    [insertDroppedNode], [propagateCollisionAreas], [generateContactPoints],
    [dropNodes] and [drawCircles].  The polygon library, the minimum spanning
    tree and every floating-point computation are taken through interfaces
    (type classes), exactly as the source takes them through headers. *)

From Stdlib Require Import ZArith List Bool Lia QArith Qround Reals Lra.
From stdpp Require Import base tactics option list.
Import ListNotations.

Local Open Scope Z_scope.

(** ** Integer points ([utils/IntPoint.h])

    [coord_t] is a signed 64-bit integer.  Signed overflow is undefined in
    C++, so coordinates are exact integers here: the embedding describes the
    executions in which coordinate arithmetic stays in range. *)

Record Point : Type := mkPoint { X : Z; Y : Z }.

#[global] Instance Point_eq_dec : EqDecision Point.
Proof. solve_decision. Defined.

Definition coord_max : Z := 2 ^ 63 - 1.

Definition point_add (a b : Point) : Point := mkPoint (X a + X b) (Y a + Y b).
Definition point_sub (a b : Point) : Point := mkPoint (X a - X b) (Y a - Y b).
(** [operator/] on points: C++ integer division truncates towards zero. *)
Definition point_div (a : Point) (d : Z) : Point :=
  mkPoint (Z.quot (X a) d) (Z.quot (Y a) d).
Definition vSize2 (p : Point) : Z := X p * X p + Y p * Y p.

(** A polygon is a closed path of points, [Polygons] a vector of paths
    (ClipperLib's [Paths]); a [PolygonsPart] is a [Polygons] whose first path
    is the outline. *)
Definition Polygon : Type := list Point.
Definition Polygons : Type := list Polygon.
Definition PolygonsPart : Type := Polygons.

(** ** Nodes ([TreeSupport::Node])

    [distance_to_top] is a [size_t]: unsigned, so [+ 1] wraps modulo 2^64.
    [support_roof_layers_below] is a signed [int].  Equality and hash of a
    node look at [position] only. *)

Record Node : Type := mkNode {
  position : Point;
  distance_to_top : Z;
  skin_direction : bool;
  support_roof_layers_below : Z;
  to_buildplate : bool
}.

Definition size_t_wrap (z : Z) : Z := z mod 2 ^ 64.

(** [std::unordered_set<Node>]: at most one node per position.  The list
    order stands for the container's iteration order, which C++ leaves
    unspecified; every statement below holds for whichever order the list
    carries. *)
Abbreviation NodeSet := (list Node).

(** [nodes.find(node)]: the stored node with the same position, if any. *)
Fixpoint set_find (nodes : NodeSet) (p : Point) : option Node :=
  match nodes with
  | [] => None
  | c :: rest => if decide (position c = p) then Some c else set_find rest p
  end.

(** [nodes.insert(node)]: no effect when the position is already taken. *)
Definition set_insert (nodes : NodeSet) (node : Node) : NodeSet :=
  match set_find nodes (position node) with
  | Some _ => nodes
  | None => nodes ++ [node]
  end.

(** The two [mutable] fields written through the iterator at lines 576-577. *)
Definition fold_conflict (conflicting node : Node) : Node :=
  mkNode (position conflicting)
         (Z.max (distance_to_top conflicting) (distance_to_top node))
         (skin_direction conflicting)
         (Z.max (support_roof_layers_below conflicting)
                (support_roof_layers_below node))
         (to_buildplate conflicting).

(** [TreeSupport::insertDroppedNode] (lines 567-578). *)
Fixpoint insertDroppedNode (nodes_layer : NodeSet) (node : Node) : NodeSet :=
  match nodes_layer with
  | [] => [node]
  | c :: rest =>
      if decide (position c = position node)
      then fold_conflict c node :: rest
      else c :: insertDroppedNode rest node
  end.


(** ** Interfaces to code outside this file

    [utils/polygon.h] and [utils/polygonUtils.h]: the polygon algebra.  A
    member that takes its point by reference and moves it in place returns
    the moved point here. *)

Record ClosestPolygonPoint : Type := mkClosest {
  location : Point;
  poly_idx : nat;
  point_idx : nat
}.

Class PolygonOps : Type := {
  (** [Polygons::inside(p, border_result)] *)
  inside : Polygons → Point → bool → bool;
  (** [PolygonsPart::inside(p, border_result)] *)
  part_inside : PolygonsPart → Point → bool → bool;
  (** [ConstPolygonRef::inside(p, border_result)] *)
  polygon_inside : Polygon → Point → bool → bool;
  splitIntoParts : Polygons → list PolygonsPart;
  findClosest : Point → Polygons → ClosestPolygonPoint;
  (** [moveInside(polygon, from, distance, max_dist2)] *)
  moveInside : Polygon → Point → Z → Z → Point;
  (** [moveOutside(polygons, from, distance, max_dist2)] *)
  moveOutside : Polygons → Point → Z → Z → Point;
  (** [ensureInsideOrOutside(polygons, from, closest, preferred_dist_inside)] *)
  ensureInsideOrOutside : Polygons → Point → ClosestPolygonPoint → Z → Point;
  (** [a.unionPolygons(b)] and the self-union [a.unionPolygons()] *)
  unionPolygons : Polygons → Polygons → Polygons;
  unionSelf : Polygons → Polygons;
  difference : Polygons → Polygons → Polygons;
  intersection : Polygons → Polygons → Polygons;
  offset : Polygons → Z → Polygons;
  smooth : Polygons → Z → Polygons;
  simplify : Polygons → Z → Z → Polygons
}.

(** [utils/MinimumSpanningTree.h]: [adjacentNodes vertices p] is
    [MinimumSpanningTree(vertices).adjacentNodes(p)]. *)
Class SpanningTree : Type := {
  adjacentNodes : list Point → Point → list Point
}.

(** Everything the source computes in floating point, for the
    configuration at hand. *)
Class FloatOps : Type := {
  (** [(coord_t)(tan(angle) * layer_height)] *)
  tan_times : Q → Z → Z;
  (** [vSize(p)], the rounded Euclidean length *)
  vSize : Point → Z;
  (** [normal(p, len)]: [p] rescaled to length [len] *)
  normal : Point → Z → Point;
  (** [(coord_t)(branch_radius + branch_radius * d * diameter_angle_scale_factor)] *)
  grown_radius : Z → Z;
  (** [std::round((float)(radius) / radius_sample_resolution)] *)
  round_to_sample : Z → Z → nat;
  (** the shape drawn for a node by the loop at lines 195-215 *)
  node_circle : Node → Polygon;
  (** [circle_side_length * (1 + diameter_angle_scale_factor_this_layer)],
      the segment length handed to [simplify] on a layer (lines 235-236) *)
  simplify_segment : nat → Z;
  (** [rotate(p, rotate_angle)] and [rotate(p, -rotate_angle)] for the
      constant [rotate_angle] of line 497 *)
  rotate_grid : Point → Point;
  rotate_grid_back : Point → Point
}.

Inductive ESupportType : Type := NONE | PLATFORM_ONLY | EVERYWHERE.

#[global] Instance ESupportType_eq_dec : EqDecision ESupportType.
Proof. solve_decision. Defined.

(** The settings read by [dropNodes] and [propagateCollisionAreas]; the
    angle is what [getSettingInAngleRadians] returns, a finite double, hence
    a rational. *)
Record Settings : Type := mkSettings {
  layer_height : Z;
  support_tree_angle : Q;
  support_tree_branch_diameter : Z;
  support_tree_collision_resolution : Z;
  support_type : ESupportType
}.

(** A loop whose body may leave the defined behaviour of the program (an
    index outside a vector): [None] stands for such an execution. *)
Fixpoint foldlM {A B : Type} (f : B → A → option B) (b : B) (l : list A)
  : option B :=
  match l with
  | [] => Some b
  | x :: rest => b' ← f b x; foldlM f b' rest
  end.

(** [field[sample][layer]] *)
Definition at2 {A : Type} (field : list (list A)) (s l : nat) : option A :=
  row ← field !! s; row !! l.

(** ** The slope bound (lines 286-288 and 584-586)

    [angle < 90 ? (coord_t)(tan(angle) * layer_height)
                : std::numeric_limits<coord_t>::max()] *)
Definition maximum_move_distance `{FloatOps} (angle : Q) (layer_height : Z) : Z :=
  if Qlt_le_dec angle 90 then tan_times angle layer_height else coord_max.

(** ** [std::unordered_map<Point, Node>] (the buckets of [dropNodes]) *)

Abbreviation NodeMap := (list (Point * Node)).

(** [group[p] = node] *)
Fixpoint map_assign (group : NodeMap) (p : Point) (node : Node) : NodeMap :=
  match group with
  | [] => [(p, node)]
  | (q, c) :: rest =>
      if decide (q = p) then (q, node) :: rest
      else (q, c) :: map_assign rest p node
  end.

(** Reading [group[p]] for a key that is present.  For an absent key
    [operator[]] would add a default-constructed node with indeterminate
    fields while the map is being iterated; that is outside the defined
    behaviour and is [None] here. *)
Fixpoint map_get (group : NodeMap) (p : Point) : option Node :=
  match group with
  | [] => None
  | (q, c) :: rest => if decide (q = p) then Some c else map_get rest p
  end.

(** ** [TreeSupport::dropNodes] (lines 283-488) *)

Section Dropper.
Context `{PolygonOps, SpanningTree, FloatOps}.
Variable cfg : Settings.
Variables model_collision model_avoidance model_internal_guide
  : list (list Polygons).

(** Lines 286-293. *)
Definition max_move : Z :=
  maximum_move_distance (support_tree_angle cfg) (layer_height cfg).
Definition branch_radius : Z := Z.quot (support_tree_branch_diameter cfg) 2.
Definition tip_layers : Z :=
  size_t_wrap (Z.quot branch_radius (layer_height cfg)).
Definition radius_sample_resolution : Z :=
  support_tree_collision_resolution cfg.
Definition support_rests_on_model : bool :=
  bool_decide (support_type cfg = EVERYWHERE).

(** The radius expression of lines 376, 430 and 457, for a layer count [d]. *)
Definition branch_radius_node (d : Z) : Z :=
  if tip_layers <? d then grown_radius d
  else Z.quot (branch_radius * d) tip_layers.

(** Lines 377 and 458. *)
Definition branch_radius_sample (d : Z) : nat :=
  round_to_sample (branch_radius_node d) radius_sample_resolution.

(** Lines 324-342: the part a node is put in; [closest_part] starts as
    [(size_t)-1]. *)
Fixpoint closest_part_loop (parts : list PolygonsPart) (part_index : Z)
    (closest_part closest_part_distance2 : Z) (p : Point) : Z :=
  match parts with
  | [] => closest_part
  | part :: rest =>
      if part_inside part p true then part_index
      else
        let closest_point := findClosest p part in
        let distance2 := vSize2 (point_sub p (location closest_point)) in
        if distance2 <? closest_part_distance2
        then closest_part_loop rest (part_index + 1) part_index distance2 p
        else closest_part_loop rest (part_index + 1) closest_part
                               closest_part_distance2 p
  end.

(** Lines 304-345, one node. *)
Definition assign_node (parts : list PolygonsPart)
    (nodes_per_part : list NodeMap) (node : Node) : list NodeMap :=
  if negb support_rests_on_model && negb (to_buildplate node)
  then nodes_per_part
  else if to_buildplate node || bool_decide (parts = [])
  then alter (λ g, map_assign g (position node) node) 0%nat nodes_per_part
  else
    let closest_part :=
      closest_part_loop parts 0 (2 ^ 64 - 1) coord_max (position node) in
    alter (λ g, map_assign g (position node) node)
          (Z.to_nat (size_t_wrap (closest_part + 1))) nodes_per_part.

(** Lines 298-345. *)
Definition group_nodes (parts : list PolygonsPart) (nodes : NodeSet)
  : list NodeMap :=
  fold_left (assign_node parts) nodes (replicate (S (length parts)) []).

(** Lines 378-398 and 459-479: the tentative position [v] is moved out of
    the avoidance area (group 0) or further into the internal guide (other
    groups).  The first pass looks for the closest border point from the
    node's position, the second from the tentative position. *)
Definition settle (group_index layer_nr sample : nat)
    (node_position closest_from v : Point) : option Point :=
  if decide (group_index = 0%nat) then
    avoid ← at2 model_avoidance sample (layer_nr - 1);
    let maximum_move_between_samples :=
      max_move + radius_sample_resolution + 100 in
    Some (moveOutside avoid v (radius_sample_resolution + 100)
            (maximum_move_between_samples * maximum_move_between_samples))
  else
    guide ← at2 model_internal_guide sample (layer_nr - 1);
    let closest_point_on_border := findClosest closest_from guide in
    let distance :=
      vSize (point_sub node_position (location closest_point_on_border)) in
    let moved_inside :=
      ensureInsideOrOutside guide v closest_point_on_border
                            (distance + max_move) in
    let diff := point_sub moved_inside node_position in
    let diff :=
      if max_move * max_move <? vSize2 diff then normal diff max_move
      else diff in
    Some (point_add node_position diff).

(** Lines 400-402 and 481-483. *)
Definition emit (layer_nr sample : nat) (node : Node) (v : Point)
    (contact_nodes : list NodeSet) : option (list NodeSet) :=
  avoid ← at2 model_avoidance sample (layer_nr - 1);
  let to_bp := negb (inside avoid v false) in
  let next_node :=
    mkNode v (size_t_wrap (distance_to_top node + 1)) (skin_direction node)
           (support_roof_layers_below node - 1) to_bp in
  target ← contact_nodes !! (layer_nr - 1)%nat;
  Some (<[(layer_nr - 1)%nat := insertDroppedNode target next_node]>
          contact_nodes).

(** Lines 407-416.  [node] is the loop's local copy of the map entry
    (line 365); the maxima are stored in that copy. *)
Fixpoint merge_neighbours (group : NodeMap) (neighbours : list Point)
    (node : Node) (to_delete : NodeSet) : option (Node * NodeSet) :=
  match neighbours with
  | [] => Some (node, to_delete)
  | neighbour :: rest =>
      if vSize2 (point_sub neighbour (position node)) <? max_move * max_move
      then
        neighbour_node ← map_get group neighbour;
        let node' :=
          mkNode (position node)
                 (Z.max (distance_to_top node) (distance_to_top neighbour_node))
                 (skin_direction node)
                 (Z.max (support_roof_layers_below node)
                        (support_roof_layers_below neighbour_node))
                 (to_buildplate node) in
        merge_neighbours group rest node' (set_insert to_delete neighbour_node)
      else merge_neighbours group rest node to_delete
  end.

(** Lines 363-418, one entry of the first pass. *)
Definition pass1_entry (group_index layer_nr : nat) (group : NodeMap)
    (st : NodeSet * list NodeSet) (entry : Point * Node)
  : option (NodeSet * list NodeSet) :=
  let '(to_delete, contact_nodes) := st in
  let node := entry.2 in
  if set_find to_delete (position node) is Some _ then Some st
  else
    let mst := map fst group in
    let neighbours := adjacentNodes mst (position node) in
    match neighbours with
    | [neighbour0] =>
        if (vSize2 (point_sub neighbour0 (position node))
            <? max_move * max_move)
           && (length (adjacentNodes mst neighbour0) =? 1)%nat
        then
          let next_position :=
            point_div (point_add (position node) neighbour0) 2 in
          let sample :=
            branch_radius_sample (size_t_wrap (distance_to_top node + 1)) in
          next_position ← settle group_index layer_nr sample
                            (position node) (position node) next_position;
          contact_nodes ← emit layer_nr sample node next_position
                            contact_nodes;
          Some (to_delete, contact_nodes)
        else Some st
    | _ =>
        if (1 <? length neighbours)%nat then
          '(_, to_delete) ← merge_neighbours group neighbours node to_delete;
          Some (to_delete, contact_nodes)
        else Some st
    end.

(** Lines 428-436: a branch that lies too far inside the collision area. *)
Definition too_far_inside (group_index layer_nr : nat) (node : Node)
  : option bool :=
  if decide (group_index = 0%nat) then Some false
  else
    collision ← at2 model_collision 0 layer_nr;
    if inside collision (position node) false then
      let r := branch_radius_node (distance_to_top node) in
      let to_outside := findClosest (position node) collision in
      Some (r * r <=? vSize2 (point_sub (position node) (location to_outside)))
    else Some false.

(** Lines 437-455: where a surviving node moves to. *)
Definition next_layer_vertex (mst : list Point) (node : Node) : Point :=
  let neighbours := adjacentNodes mst (position node) in
  let moves :=
    match neighbours with
    | [] => false
    | [neighbour0] =>
        max_move * max_move
        <=? vSize2 (point_sub neighbour0 (position node))
    | _ => true
    end in
  if moves then
    let sum_direction :=
      fold_left (λ s neighbour,
                   point_add s (point_sub neighbour (position node)))
                neighbours (mkPoint 0 0) in
    if vSize2 sum_direction <=? max_move * max_move
    then point_add (position node) sum_direction
    else point_add (position node) (normal sum_direction max_move)
  else position node.

(** Lines 420-484, one entry of the second pass. *)
Definition pass2_entry (group_index layer_nr : nat) (group : NodeMap)
    (to_delete : NodeSet) (contact_nodes : list NodeSet)
    (entry : Point * Node) : option (list NodeSet) :=
  let node := entry.2 in
  if set_find to_delete (position node) is Some _ then Some contact_nodes
  else
    skip ← too_far_inside group_index layer_nr node;
    if (skip : bool) then Some contact_nodes
    else
      let v := next_layer_vertex (map fst group) node in
      let sample :=
        branch_radius_sample (size_t_wrap (distance_to_top node + 1)) in
      v ← settle group_index layer_nr sample (position node) v v;
      emit layer_nr sample node v contact_nodes.

(** Lines 358-485, one group: both passes. *)
Definition drop_group (layer_nr : nat) (contact_nodes : list NodeSet)
    (indexed_group : nat * NodeMap) : option (list NodeSet) :=
  let '(group_index, group) := indexed_group in
  '(to_delete, contact_nodes) ←
    foldlM (pass1_entry group_index layer_nr group) ([], contact_nodes) group;
  foldlM (pass2_entry group_index layer_nr group to_delete)
         contact_nodes group.

(** Lines 346-485 for the nodes read from the layer. *)
Definition drop_layer_nodes (layer_nr : nat) (parts : list PolygonsPart)
    (nodes : NodeSet) (contact_nodes : list NodeSet)
  : option (list NodeSet) :=
  let nodes_per_part := group_nodes parts nodes in
  foldlM (drop_group layer_nr) contact_nodes
         (zip (seq 0 (length nodes_per_part)) nodes_per_part).

(** Lines 296-486: the body of the layer loop. *)
Definition dropNodes_layer (layer_nr : nat) (contact_nodes : list NodeSet)
  : option (list NodeSet) :=
  avoidance ← at2 model_avoidance 0 layer_nr;
  nodes ← contact_nodes !! layer_nr;
  drop_layer_nodes layer_nr (splitIntoParts avoidance) nodes contact_nodes.

(** The loop of line 294, from [layer_nr] down to 1. *)
Fixpoint dropNodes_from (layer_nr : nat) (contact_nodes : list NodeSet)
  : option (list NodeSet) :=
  match layer_nr with
  | O => Some contact_nodes
  | S below =>
      contact_nodes ← dropNodes_layer layer_nr contact_nodes;
      dropNodes_from below contact_nodes
  end.

(** [dropNodes].  With no layer at all, [contact_nodes.size() - 1] wraps
    to the largest [size_t] and the first iteration indexes outside every
    vector. *)
Definition dropNodes (contact_nodes : list NodeSet) : option (list NodeSet) :=
  match length contact_nodes with
  | O => None
  | S top => dropNodes_from top contact_nodes
  end.
End Dropper.

(** ** [TreeSupport::propagateCollisionAreas] (lines 580-605) *)

Section Avoidance.
Context `{PolygonOps, FloatOps}.
Variable cfg : Settings.
(** [storage.support.supportLayers.size()] *)
Variable layer_count : nat.

(** Lines 594-596: one more layer on top of [avoidance_sample]. *)
Definition propagate_layer (collision_sample avoidance_sample : list Polygons)
    (layer_nr : nat) : option (list Polygons) :=
  below ← avoidance_sample !! (layer_nr - 1)%nat;
  collision ← collision_sample !! layer_nr;
  let previous_layer :=
    smooth (offset below
              (- maximum_move_distance (support_tree_angle cfg)
                                       (layer_height cfg))) 5 in
  let previous_layer := unionPolygons previous_layer collision in
  Some (avoidance_sample ++ [previous_layer]).

(** Lines 591-597: one radius sample. *)
Definition propagate_sample
    (sample : list Polygons * list Polygons) : option (list Polygons) :=
  let '(collision_sample, avoidance_sample) := sample in
  bottom ← collision_sample !! 0%nat;
  foldlM (propagate_layer collision_sample) (avoidance_sample ++ [bottom])
         (seq 1 (layer_count - 1)).

(** The whole function; [model_avoidance] is the vector handed in by the
    caller, which [resize] cuts or pads with empty samples. *)
Definition propagateCollisionAreas
    (model_collision model_avoidance : list (list Polygons))
  : option (list (list Polygons)) :=
  let model_avoidance := resize (length model_collision) [] model_avoidance in
  mapM propagate_sample (zip model_collision model_avoidance).
End Avoidance.

(** ** Bounding boxes ([utils/AABB.h]) *)

Record AABB : Type := mkAABB { aabb_min : Point; aabb_max : Point }.

Definition coord_min : Z := - 2 ^ 63.

(** Modelled from the spec: the axis-aligned bounding box of utils/AABB.h is
    missing from the sources at hand.  A fresh box is empty (minimum at the
    largest coordinate, maximum at the smallest); [include] grows it to hold
    one more point; the box of a polygon holds every vertex; [expand] widens a
    non-empty box on all four sides; [contains] counts the border in; the
    middle is the average of the two corners. *)
Definition aabb_empty : AABB :=
  mkAABB (mkPoint coord_max coord_max) (mkPoint coord_min coord_min).

(** Modelled from the spec: [AABB::include], missing like the rest of the
    box: the smallest box holding the old one and the point. *)
Definition aabb_include (box : AABB) (p : Point) : AABB :=
  mkAABB (mkPoint (Z.min (X (aabb_min box)) (X p)) (Z.min (Y (aabb_min box)) (Y p)))
         (mkPoint (Z.max (X (aabb_max box)) (X p)) (Z.max (Y (aabb_max box)) (Y p))).

(** Modelled from the spec: the box built from a polygon, the AABB of the
    overhang part; it holds every vertex. *)
Definition aabb_of_polygon (poly : Polygon) : AABB :=
  fold_left aabb_include poly aabb_empty.

(** Modelled from the spec: [AABB::expand], the box widened by [dist] on
    every side; an empty box stays empty. *)
Definition aabb_expand (box : AABB) (dist : Z) : AABB :=
  if bool_decide (aabb_min box = mkPoint coord_max coord_max)
     || bool_decide (aabb_max box = mkPoint coord_min coord_min)
  then box
  else mkAABB (mkPoint (X (aabb_min box) - dist) (Y (aabb_min box) - dist))
              (mkPoint (X (aabb_max box) + dist) (Y (aabb_max box) + dist)).

(** Modelled from the spec: [AABB::contains], border included. *)
Definition aabb_contains (box : AABB) (p : Point) : bool :=
  (X (aabb_min box) <=? X p) && (X p <=? X (aabb_max box))
  && (Y (aabb_min box) <=? Y p) && (Y p <=? Y (aabb_max box)).

(** Modelled from the spec: [AABB::getMiddle], the bounding-box centre. *)
Definition getMiddle (box : AABB) : Point :=
  point_div (point_add (aabb_min box) (aabb_max box)) 2.

(** ** [TreeSupport::generateContactPoints] (lines 490-565) *)

(** What the function reads from the mesh.  The three derived numbers are
    computed by helpers of utils/math.h and by [tan]; they are kept as the
    values of lines 521-523. *)
Record Mesh : Type := mkMesh {
  (** [mesh.bounding_box.flatten()] *)
  bounding_box : AABB;
  overhang_areas : list Polygons;
  (** [support_tree_branch_distance] *)
  point_spread : Z;
  (** [std::max(0U, round_up_divide(z_distance_top, layer_height)) + 1] *)
  z_distance_top_layers : nat;
  (** [support_roof_enable ? round_divide(support_roof_height, layer_height) : 0] *)
  support_roof_layers : Z;
  (** [tan(support_angle) * layer_height / 2] *)
  half_overhang_distance : Z
}.

(** The values taken by the counter of
    [for (x = lo; x <= hi; x += step)].  With a step that is not positive the
    loop never ends once entered: [None]. *)
Definition grid_steps (lo hi step : Z) : option (list Z) :=
  if hi <? lo then Some []
  else if step <=? 0 then None
  else Some (map (λ i : nat, lo + Z.of_nat i * step)
               (seq 0 (S (Z.to_nat ((hi - lo) / step))))).

(** [contact_nodes[layer_nr].insert(node)] *)
Definition insert_contact (contact_nodes : list NodeSet) (layer_nr : nat)
    (node : Node) : option (list NodeSet) :=
  nodes ← contact_nodes !! layer_nr;
  Some (<[layer_nr := set_insert nodes node]> contact_nodes).

Section Seeder.
Context `{PolygonOps, FloatOps}.
Variable mesh : Mesh.
Variable collision_areas : list Polygons.

(** Lines 494-517. *)
Definition rotated_bounding_box : AABB :=
  let bounding_box_size :=
    point_sub (aabb_max (bounding_box mesh)) (aabb_min (bounding_box mesh)) in
  aabb_include
    (aabb_include
       (aabb_include (aabb_include aabb_empty (mkPoint 0 0))
                     (rotate_grid_back bounding_box_size))
       (rotate_grid_back (mkPoint 0 (Y bounding_box_size))))
    (rotate_grid_back (mkPoint (X bounding_box_size) 0)).

Definition unrotated_bounding_box : AABB :=
  let r := rotated_bounding_box in
  aabb_include
    (aabb_include
       (aabb_include (aabb_include aabb_empty (rotate_grid (aabb_min r)))
                     (rotate_grid (aabb_max r)))
       (rotate_grid (mkPoint (X (aabb_min r)) (Y (aabb_max r)))))
    (rotate_grid (mkPoint (X (aabb_max r)) (Y (aabb_min r)))).

Definition grid_points : option (list Point) :=
  let u := unrotated_bounding_box in
  xs ← grid_steps (X (aabb_min u)) (X (aabb_max u)) (point_spread mesh);
  match xs with
  | [] => Some []
  | _ =>
      ys ← grid_steps (Y (aabb_min u)) (Y (aabb_max u)) (point_spread mesh);
      Some (flat_map
              (λ x, map (λ y, point_add (rotate_grid (mkPoint x y))
                                        (aabb_min (bounding_box mesh))) ys)
              xs)
  end.

(** Lines 539-552: one grid candidate for one overhang part.  The state is
    the contact nodes and the flag [added]. *)
Definition seed_candidate (layer_nr : nat) (overhang_part : Polygon)
    (overhang_bounds : AABB) (st : list NodeSet * bool) (candidate : Point)
  : option (list NodeSet * bool) :=
  let '(contact_nodes, added) := st in
  if aabb_contains overhang_bounds candidate then
    let candidate :=
      moveInside overhang_part candidate 0
        (half_overhang_distance mesh * half_overhang_distance mesh) in
    if polygon_inside overhang_part candidate true then
      collision ← collision_areas !! layer_nr;
      if negb (inside collision candidate true) then
        let contact_node :=
          mkNode candidate 0
                 (negb (Nat.even (layer_nr + z_distance_top_layers mesh)))
                 (support_roof_layers mesh) true in
        contact_nodes ← insert_contact contact_nodes layer_nr contact_node;
        Some (contact_nodes, true)
      else Some st
    else Some st
  else Some st.

(** Lines 556-561: the node added when no candidate was. *)
Definition fallback_node (layer_nr : nat) (overhang_part : Polygon) : Node :=
  let candidate :=
    moveInside overhang_part (getMiddle (bounding_box mesh)) 0 coord_max in
  mkNode candidate 0 (negb (Nat.even layer_nr)) (support_roof_layers mesh) true.

(** Lines 534-562: one overhang part. *)
Definition seed_overhang_part (grid : list Point) (layer_nr : nat)
    (contact_nodes : list NodeSet) (overhang_part : Polygon)
  : option (list NodeSet) :=
  let overhang_bounds :=
    aabb_expand (aabb_of_polygon overhang_part) (half_overhang_distance mesh) in
  '(contact_nodes, added) ←
    foldlM (seed_candidate layer_nr overhang_part overhang_bounds)
           (contact_nodes, false) grid;
  if (added : bool) then Some contact_nodes
  else insert_contact contact_nodes layer_nr
                      (fallback_node layer_nr overhang_part).

(** Lines 526-563: one layer. *)
Definition seed_layer (grid : list Point) (contact_nodes : list NodeSet)
    (layer_nr : nat) : option (list NodeSet) :=
  overhang ← overhang_areas mesh !! (layer_nr + z_distance_top_layers mesh)%nat;
  foldlM (seed_overhang_part grid layer_nr) contact_nodes overhang.

(** The whole function: layers 1 up to, not including,
    [overhang_areas.size() - z_distance_top_layers]. *)
Definition generateContactPoints (contact_nodes : list NodeSet)
  : option (list NodeSet) :=
  grid ← grid_points;
  foldlM (seed_layer grid) contact_nodes
         (seq 1 (length (overhang_areas mesh)
                 - z_distance_top_layers mesh - 1)).
End Seeder.

(** ** [TreeSupport::drawCircles] (lines 168-281) *)

Record SupportInfillPart : Type := mkSupportInfillPart {
  outline : PolygonsPart;
  support_line_width : Z;
  inset_count_to_generate : Z
}.

Record SupportLayer : Type := mkSupportLayer {
  support_infill_parts : list SupportInfillPart;
  support_roof : Polygons;
  support_bottom : Polygons
}.

(** What the renderer reads from the settings; the layer counts are the
    [round_up_divide] values of lines 181, 243 and 245. *)
Record RenderSettings : Type := mkRenderSettings {
  line_width : Z;
  wall_count : Z;
  z_distance_bottom_layers : nat;
  support_bottom_enable : bool;
  support_interface_skip_layers : nat;
  support_bottom_height_layers : nat
}.

Section Renderer.
Context `{PolygonOps, FloatOps}.
Variable rs : RenderSettings.
(** [storage.getLayerOutlines(layer, false)] *)
Variable layer_outlines : nat → Polygons.
Variable model_collision : list (list Polygons).

(** Lines 216-223: where the shape of one node goes. *)
Definition draw_node (layers : Polygons * Polygons) (node : Node)
  : Polygons * Polygons :=
  let '(support_layer, roof_layer) := layers in
  let circle := node_circle node in
  if 0 <=? support_roof_layers_below node
  then (support_layer, roof_layer ++ [circle])
  else (support_layer ++ [circle], roof_layer).

(** Lines 189-224: [roof_layer] is the roof already stored for the layer. *)
Definition draw_nodes (nodes : NodeSet) (roof_layer : Polygons)
  : Polygons * Polygons :=
  fold_left draw_node nodes ([], roof_layer).

(** Line 228. *)
Definition z_collision_layer (layer_nr : nat) : nat :=
  Z.to_nat (Z.max 0 (Z.of_nat layer_nr
                     - Z.of_nat (z_distance_bottom_layers rs) + 1)).

(** Lines 225-233: union, roof taken out of support, model taken out of
    both; nothing is taken out when the collision sample has no such
    layer. *)
Definition clear_collision (layer_nr : nat) (layers : Polygons * Polygons)
  : option (Polygons * Polygons) :=
  let '(support_layer, roof_layer) := layers in
  let support_layer := unionSelf support_layer in
  let roof_layer := unionSelf roof_layer in
  let support_layer := difference support_layer roof_layer in
  sample0 ← model_collision !! 0%nat;
  match sample0 !! z_collision_layer layer_nr with
  | Some collision =>
      Some (difference support_layer collision,
            difference roof_layer collision)
  | None => Some (support_layer, roof_layer)
  end.

(** Lines 248-250 and 253-255: one sample of the model below. *)
Definition floor_sample (layer_nr layers_below : nat)
    (support_layer : Polygons) : Polygons :=
  let sample_layer :=
    Z.to_nat (Z.max 0 (Z.of_nat layer_nr - Z.of_nat layers_below
                       - Z.of_nat (z_distance_bottom_layers rs))) in
  intersection support_layer (layer_outlines sample_layer).

(** The counter values of the loop at line 246; a stride of zero never
    leaves the loop. *)
Definition floor_strides : option (list nat) :=
  match support_bottom_height_layers rs, support_interface_skip_layers rs with
  | O, _ => Some []
  | S _, O => None
  | S h, S k => Some (map (λ i, i * S k)%nat (seq 0 (S (h / S k))))
  end.

(** Lines 239-259.  The union at line 257 returns a value that is not
    kept, so the floor keeps its paths as added. *)
Definition subtract_floors (layer_nr : nat) (support_layer floor_layer : Polygons)
  : option (Polygons * Polygons) :=
  if support_bottom_enable rs then
    strides ← floor_strides;
    let floor_layer :=
      fold_left (λ fl layers_below,
                   fl ++ floor_sample layer_nr layers_below support_layer)
                strides floor_layer in
    let floor_layer :=
      floor_layer ++ floor_sample layer_nr (support_bottom_height_layers rs)
                                  support_layer in
    Some (difference support_layer (offset floor_layer 10), floor_layer)
  else Some (support_layer, floor_layer).

(** Lines 261-266: every path of the support polygon becomes a part. *)
Definition emit_parts (support_layer : Polygons) : list SupportInfillPart :=
  map (λ part, mkSupportInfillPart [part] (line_width rs) (wall_count rs))
      support_layer.

(** Lines 189-266: one layer of the output. *)
Definition draw_layer (layer_nr : nat) (nodes : NodeSet) (out : SupportLayer)
  : option SupportLayer :=
  '(support_layer, roof_layer) ←
    clear_collision layer_nr (draw_nodes nodes (support_roof out));
  let support_layer :=
    simplify support_layer (simplify_segment layer_nr)
             (Z.shiftr (line_width rs) 2) in
  '(support_layer, floor_layer) ←
    subtract_floors layer_nr support_layer (support_bottom out);
  Some (mkSupportLayer (support_infill_parts out ++ emit_parts support_layer)
                       roof_layer floor_layer).

(** Lines 267-273. *)
Definition max_filled_layer (current : Z) (layer_nr : nat) (out : SupportLayer)
  : Z :=
  if negb (bool_decide (support_infill_parts out = []))
     || negb (bool_decide (support_roof out = []))
  then Z.max current (Z.of_nat layer_nr)
  else current.

(** The layer loop of line 187 over [storage.support]. *)
Definition draw_step (contact_nodes : list NodeSet)
    (storage : list SupportLayer * Z) (layer_nr : nat)
  : option (list SupportLayer * Z) :=
  let '(supportLayers, layer_nr_max_filled_layer) := storage in
  nodes ← contact_nodes !! layer_nr;
  out ← supportLayers !! layer_nr;
  out ← draw_layer layer_nr nodes out;
  Some (<[layer_nr := out]> supportLayers,
        max_filled_layer layer_nr_max_filled_layer layer_nr out).

Definition drawCircles (contact_nodes : list NodeSet)
    (storage : list SupportLayer * Z) : option (list SupportLayer * Z) :=
  foldlM (draw_step contact_nodes) storage (seq 0 (length contact_nodes)).
End Renderer.

(** ** Vocabulary of the statements *)

(** What line 594-595 computes from the avoidance layer below and the
    collision layer. *)
Definition propagated `{PolygonOps, FloatOps} (cfg : Settings)
    (below collision : Polygons) : Polygons :=
  unionPolygons
    (smooth (offset below
               (- maximum_move_distance (support_tree_angle cfg)
                                        (layer_height cfg))) 5)
    collision.

(** [written_below l cn cn']: going from [cn] to [cn'] changed no layer
    other than [l - 1] and kept the number of layers. *)
Definition written_below (layer_nr : nat) (cn cn' : list NodeSet) : Prop :=
  length cn' = length cn
  ∧ ∀ k, k ≠ (layer_nr - 1)%nat → cn' !! k = cn !! k.

(** Every entry of every bucket can reach the build plate. *)
Definition reachable_buckets (nodes_per_part : list NodeMap) : Prop :=
  Forall (Forall (λ entry : Point * Node, to_buildplate entry.2 = true))
         nodes_per_part.

(** The double nearest to π/2: 90 degrees, once in radians. *)
Definition right_angle : Q := 7074237752028440 # 4503599627370496.

(** The test a grid candidate has to pass at lines 539-544. *)
Definition candidate_accepted `{PolygonOps} (mesh : Mesh) (collision : Polygons)
    (overhang_part : Polygon) (candidate : Point) : bool :=
  let overhang_bounds :=
    aabb_expand (aabb_of_polygon overhang_part) (half_overhang_distance mesh) in
  aabb_contains overhang_bounds candidate
  && (let moved :=
        moveInside overhang_part candidate 0
          (half_overhang_distance mesh * half_overhang_distance mesh) in
      polygon_inside overhang_part moved true
      && negb (inside collision moved true)).


(** What the dropper does with one node of the build-plate bucket once its
    tentative position [v] is known: settle [v] against the avoidance area of
    the node's radius sample and insert the dropped node below (lines 376-402
    and 457-483 with [group_index = 0]). *)
Definition drop_at `{PolygonOps, FloatOps} (cfg : Settings)
    (model_avoidance model_internal_guide : list (list Polygons))
    (layer_nr : nat) (node : Node) (v : Point) (contact_nodes : list NodeSet)
  : option (list NodeSet) :=
  let sample :=
    branch_radius_sample cfg (size_t_wrap (distance_to_top node + 1)) in
  v ← settle cfg model_avoidance model_internal_guide 0 layer_nr sample
        (position node) (position node) v;
  emit model_avoidance layer_nr sample node v contact_nodes.

(** ** A discrete geometry for the examples

    Modelled from the spec: the polygon library (utils/polygon.h,
    utils/polygonUtils.h) is missing from the sources at hand.  The examples
    run on a discrete reading of its contracts: a path lists the grid cells it
    covers and a [Polygons] covers the cells of its paths.  Set operations
    work cell by cell, [moveInside] goes to the nearest covered cell within
    the allowed step and leaves a covered point alone, [moveOutside] goes to
    a free cell within the allowed step and leaves a free point alone,
    [offset] grows or shrinks by whole cells, and [simplify] may close a
    notch of one cell in a path when the allowed deviation is at least one
    cell. *)
Module Cells.
(** Modelled from the spec: the inside test, on cells. *)
Definition covers (polys : Polygons) (p : Point) : bool :=
  bool_decide (p ∈ concat polys).

(** Modelled from the spec: the closest point of a polygon, on cells. *)
Definition nearest (cells : list Point) (p : Point) : Point :=
  fold_left (λ best c,
               if vSize2 (point_sub c p) <? vSize2 (point_sub best p)
               then c else best)
            cells (default p (head cells)).

(** Modelled from the spec: [moveInside], a no-op on a covered point,
    otherwise a move to the nearest covered cell if that is within the
    allowed step. *)
Definition move_inside (poly : Polygon) (p : Point) (distance max_dist2 : Z)
  : Point :=
  if bool_decide (p ∈ poly) then p
  else
    let c := nearest poly p in
    if vSize2 (point_sub c p) <? max_dist2 then c else p.

(** Modelled from the spec: [moveOutside], a no-op on a free point,
    otherwise a move to a free cell if one is within the allowed step. *)
Definition move_outside (polys : Polygons) (p : Point)
    (distance max_dist2 : Z) : Point :=
  if covers polys p then
    let steps :=
      map (λ k : nat, point_add p (mkPoint (Z.of_nat (S k)) 0))
          (seq 0 (length (concat polys))) in
    match filter (λ q, covers polys q = false) steps with
    | q :: _ => if vSize2 (point_sub q p) <? max_dist2 then q else p
    | [] => p
    end
  else p.

(** Modelled from the spec: [ensureInsideOrOutside], used to go inside. *)
Definition ensure_inside (polys : Polygons) (p : Point)
    (closest : ClosestPolygonPoint) (preferred_dist_inside : Z) : Point :=
  if covers polys p then p else nearest (concat polys) p.

Definition span (d : Z) : list Z :=
  map (λ k : nat, Z.of_nat k - d) (seq 0 (Z.to_nat (2 * d + 1))).

Definition around (d : Z) (c : Point) : list Point :=
  flat_map (λ dx, map (λ dy, point_add c (mkPoint dx dy)) (span d)) (span d).

(** Modelled from the spec: [offset], expansion for [d ≥ 0] and erosion
    for [d < 0], by whole cells. *)
Definition grow (polys : Polygons) (d : Z) : Polygons :=
  if 0 <=? d then map (flat_map (around d)) polys
  else map (filter (λ c, forallb (covers polys) (around (- d) c) = true)) polys.

(** The cells that close a one-cell notch of a path. *)
Definition notches (path : Polygon) : list Point :=
  let between (a b : Point) (c : Point) :=
    bool_decide (point_add c a ∈ path) && bool_decide (point_add c b ∈ path) in
  filter (λ c, bool_decide (c ∉ path)
               && (between (mkPoint (-1) 0) (mkPoint 1 0) c
                   || between (mkPoint 0 (-1)) (mkPoint 0 1) c) = true)
         (flat_map (around 1) path).

(** Modelled from the spec: [simplify], which removes short segments as
    long as the outline moves by no more than the allowed deviation; on
    cells, a notch one cell wide may be closed. *)
Definition close_notches (polys : Polygons) (smallest_segment deviation : Z)
  : Polygons :=
  if 1 <=? deviation
  then map (λ path, path ++ remove_dups (notches path)) polys
  else polys.

(** Modelled from the spec: the polygon library behind [PolygonOps], read
    on grid cells as described above. *)
#[global] Instance ops : PolygonOps := {|
  inside polys p _ := covers polys p;
  part_inside polys p _ := covers polys p;
  polygon_inside poly p _ := bool_decide (p ∈ poly);
  splitIntoParts polys := map (λ poly, [poly]) polys;
  findClosest p polys := mkClosest (nearest (concat polys) p) 0 0;
  moveInside := move_inside;
  moveOutside := move_outside;
  ensureInsideOrOutside := ensure_inside;
  unionPolygons a b := a ++ b;
  unionSelf a := a;
  difference a b := map (filter (λ c, covers b c = false)) a;
  intersection a b := map (filter (λ c, covers b c = true)) a;
  offset := grow;
  smooth a _ := a;
  simplify := close_notches
|}.
End Cells.

(** ** Prim's algorithm for the examples

    Modelled from the spec: utils/MinimumSpanningTree is missing from the
    sources at hand; the spec asks for an undirected minimum spanning tree
    under the Euclidean metric that answers neighbour queries.  The tree is
    grown from the first vertex, one nearest outside vertex at a time. *)
Module Prim.
Definition shorter (best : option (Point * Point)) (e : Point * Point)
  : option (Point * Point) :=
  match best with
  | None => Some e
  | Some b =>
      if vSize2 (point_sub e.2 e.1) <? vSize2 (point_sub b.2 b.1)
      then Some e else best
  end.

Definition best_edge (tree rest : list Point) : option (Point * Point) :=
  fold_left shorter (flat_map (λ t, map (λ r, (t, r)) rest) tree) None.

Fixpoint grow_tree (fuel : nat) (tree rest : list Point)
    (edges : list (Point * Point)) : list (Point * Point) :=
  match fuel with
  | O => edges
  | S fuel' =>
      match best_edge tree rest with
      | None => edges
      | Some (t, r) =>
          grow_tree fuel' (r :: tree) (filter (λ q, q ≠ r) rest)
                    (edges ++ [(t, r)])
      end
  end.

Definition edges (vertices : list Point) : list (Point * Point) :=
  match vertices with
  | [] => []
  | v :: rest => grow_tree (length rest) [v] rest []
  end.

Definition adjacent (vertices : list Point) (p : Point) : list Point :=
  flat_map (λ e : Point * Point,
              if decide (e.1 = p) then [e.2]
              else if decide (e.2 = p) then [e.1] else [])
           (edges vertices).

(** Modelled from the spec: the MST builder behind [SpanningTree], as
    Prim's algorithm. *)
#[global] Instance tree : SpanningTree := {| adjacentNodes := adjacent |}.
End Prim.

(** ** Numbers for the examples

    Modelled from the spec: the floating-point helpers are outside the
    sources at hand.  The tangent is a truncated series (close for small
    angles), the length is the integer square root, [normal] is the integer
    rescaling of utils/IntPoint.h, the branch does not widen with depth
    (a diameter angle of zero, branch radius 1000), a radius is rounded to
    the nearest sample, a node is drawn as the block of three by three cells
    around it, and the grid is turned by the Pythagorean angle of the
    triangle 5-12-13 (22.6 degrees). *)
Module Numbers.
Definition tan_series (angle : Q) (layer_height : Z) : Z :=
  let a2 := (angle * angle)%Q in
  Qfloor (inject_Z layer_height
          * (angle * (1 + a2 * ((1 # 3) + a2 * ((2 # 15) + a2 * (17 # 315))))))%Q.

Definition length_of (p : Point) : Z := Z.sqrt (vSize2 p).

Definition rescale (p : Point) (len : Z) : Point :=
  let l := length_of p in
  if l <? 1 then mkPoint len 0
  else point_div (mkPoint (X p * len) (Y p * len)) l.

Definition nearest_sample (radius resolution : Z) : nat :=
  Z.to_nat ((2 * radius + resolution) / (2 * resolution)).

(** Modelled from the spec: the floating-point helpers behind [FloatOps],
    with the integer stand-ins described above. *)
#[global] Instance floats : FloatOps := {|
  tan_times := tan_series;
  vSize := length_of;
  normal := rescale;
  grown_radius _ := 1000;
  round_to_sample := nearest_sample;
  node_circle n := Cells.around 1 (position n);
  simplify_segment _ := 0;
  rotate_grid p :=
    mkPoint ((12 * X p - 5 * Y p) / 13) ((5 * X p + 12 * Y p) / 13);
  rotate_grid_back p :=
    mkPoint ((12 * X p + 5 * Y p) / 13) ((12 * Y p - 5 * X p) / 13)
|}.
End Numbers.

(** ** Example inputs *)

Module Examples.
Import Cells Prim Numbers.

(** A slope of half a radian on layers of 100 microns: branches may move
    54 microns per layer. *)
Definition settings (type : ESupportType) : Settings :=
  mkSettings 100 (1 # 2) 2000 500 type.

(** The only obstacle is far away from every node. *)
Definition far_away : Polygons := [[mkPoint 100000 100000]].
Definition open_field : list (list Polygons) :=
  [[far_away; far_away]; [far_away; far_away]; [far_away; far_away]].
Definition no_guide : list (list Polygons) := [[[]; []]; [[]; []]; [[]; []]].

(** Two nodes 10 microns apart on layer 1, nothing on layer 0. *)
Definition dyad_a : Node := mkNode (mkPoint 0 0) 0 false 0 true.
Definition dyad_b : Node := mkNode (mkPoint 10 0) 3 true 2 true.
Definition dyad_layers : list NodeSet := [[]; [dyad_a; dyad_b]].

(** Three nodes in a row on layer 1; the outer ones are leaves of the
    spanning tree, the middle one has them both as neighbours. *)
Definition row_left : Node := mkNode (mkPoint 0 0) 5 false 3 true.
Definition row_middle : Node := mkNode (mkPoint 10 0) 0 false 0 true.
Definition row_right : Node := mkNode (mkPoint 20 0) 0 false 0 true.
Definition row_layers : list NodeSet := [[]; [row_left; row_middle; row_right]].
Definition row_group : NodeMap :=
  [(position row_left, row_left); (position row_middle, row_middle);
   (position row_right, row_right)].

(** A node that cannot reach the build plate next to one that can. *)
Definition stuck : Node := mkNode (mkPoint 40 40) 2 false 0 false.
Definition mixed_layers : list NodeSet := [[]; [dyad_a; stuck]].

(** A mesh whose bounding box spans (0,0)-(10,10), with an overhang part
    that is a bar of three cells near its upper right corner; the grid
    points all miss the bar. *)
Definition bar : Polygon := [mkPoint 8 8; mkPoint 9 8; mkPoint 10 8].
Definition bar_mesh : Mesh :=
  mkMesh (mkAABB (mkPoint 0 0) (mkPoint 10 10)) [[]; []; [bar]] 5 1 0 1.
Definition bar_grid : list Point :=
  [mkPoint 0 0; mkPoint 5 0; mkPoint 0 5; mkPoint 5 5].
Definition no_collision : list Polygons := [[]; []; []].

(** Two collision samples of three layers each. *)
Definition two_samples : list (list Polygons) :=
  [[far_away; far_away; far_away]; [far_away; far_away; far_away]].

(** One branch, drawn as the block (0,0)-(2,2), whose lower edge is
    notched by a collision cell at (1,0). *)
Definition render_settings : RenderSettings :=
  mkRenderSettings 400 1 1 false 1 0.
Definition branch : Node := mkNode (mkPoint 1 1) 20 false (-1) true.
Definition notch : Polygons := [[mkPoint 1 0]].
Definition notched_collision : list (list Polygons) := [[[]; notch]].
Definition blank_layer : SupportLayer := mkSupportLayer [] [] [].
Definition no_outlines : nat → Polygons := λ _, [].
End Examples.

(** ** [TreeSupport::collisionAreas] (lines 136-166) *)

(** [collision.offset(distance, ClipperLib::JoinType::jtRound)], the offset
    with round joins of line 156. *)
Class RoundOffset : Type := {
  offset_round : Polygons → Z → Polygons
}.

Section Collision.
Context `{PolygonOps, FloatOps, RoundOffset}.
Variable cfg : Settings.
(** [support_xy_distance] *)
Variable xy_distance : Z.
(** [storage.support.supportLayers.size()] *)
Variable layer_count : nat.
(** [storage.getLayerOutlines(layer, false)] *)
Variable layer_outlines : nat → Polygons.
(** The member built by the constructor. *)
Variable machine_volume_border : Polygons.

(** Line 141: the integer product of the layer count and the branch radius
    goes through the same floating-point expression as the product of line
    376, so it is [grown_radius] at the layer count. *)
Definition maximum_radius : Z := grown_radius (Z.of_nat layer_count).

(** Line 143: the number of radius samples. *)
Definition sample_count : nat :=
  S (round_to_sample maximum_radius (support_tree_collision_resolution cfg)).

(** Lines 151-156: one layer of one sample. *)
Definition collision_layer (radius_sample layer_nr : nat) : Polygons :=
  let radius :=
    Z.of_nat radius_sample * support_tree_collision_resolution cfg in
  let collision := layer_outlines layer_nr in
  let collision := unionPolygons collision machine_volume_border in
  offset_round collision (xy_distance + radius).

(** Lines 149-158: the layers pushed onto one sample. *)
Definition collision_sample (radius_sample : nat) (sample : list Polygons)
  : list Polygons :=
  sample ++ map (collision_layer radius_sample) (seq 0 layer_count).

(** The whole function, on the vector handed in by the caller. *)
Definition collisionAreas (model_collision : list (list Polygons))
  : list (list Polygons) :=
  imap collision_sample (resize sample_count [] model_collision).
End Collision.

(** ** [TreeSupport::generateSupportAreas] (lines 76-134) *)

(** A mesh with its own [support_tree_enable] setting. *)
Record SliceMesh : Type := mkSliceMesh {
  mesh_support_tree_enable : bool;
  mesh_data : Mesh
}.

(** What the function reads and writes in [SliceDataStorage]. *)
Record Storage : Type := mkStorage {
  support_tree_enable : bool;
  meshes : list SliceMesh;
  supportLayers : list SupportLayer;
  layer_nr_max_filled_layer : Z;
  generated : bool
}.

(** Lines 78-90. *)
Definition use_tree_support (storage : Storage) : bool :=
  support_tree_enable storage
  || existsb mesh_support_tree_enable (meshes storage).

Section Pipeline.
Context `{PolygonOps, SpanningTree, FloatOps, RoundOffset}.
Variable cfg : Settings.
Variable rs : RenderSettings.
Variable xy_distance : Z.
Variable layer_outlines : nat → Polygons.
Variable machine_volume_border : Polygons.

(** Lines 105-109: one sample of the internal guide. *)
Definition internal_guide_sample (model_collision : list (list Polygons))
    (indexed_sample : nat * list Polygons) : option (list Polygons) :=
  let '(radius_sample, avoidance_sample) := indexed_sample in
  mapM (λ indexed_layer : nat * Polygons,
          collision ← at2 model_collision radius_sample indexed_layer.1;
          Some (difference indexed_layer.2 collision))
       (imap pair avoidance_sample).

(** Lines 101-110. *)
Definition internal_guide (model_collision model_avoidance : list (list Polygons))
  : option (list (list Polygons)) :=
  mapM (internal_guide_sample model_collision) (imap pair model_avoidance).

(** Lines 118-125: contact points of one mesh, if it asks for tree
    support. *)
Definition seed_mesh (model_collision : list (list Polygons))
    (contact_nodes : list NodeSet) (mesh : SliceMesh)
  : option (list NodeSet) :=
  if mesh_support_tree_enable mesh then
    collision_areas ← model_collision !! 0%nat;
    generateContactPoints (mesh_data mesh) collision_areas contact_nodes
  else Some contact_nodes.

Definition generateSupportAreas (storage : Storage) : option Storage :=
  if negb (use_tree_support storage) then Some storage
  else
    let layer_count := length (supportLayers storage) in
    let model_collision :=
      collisionAreas cfg xy_distance layer_count layer_outlines
                     machine_volume_border [] in
    model_avoidance ←
      propagateCollisionAreas cfg layer_count model_collision [];
    model_internal_guide ← internal_guide model_collision model_avoidance;
    let contact_nodes := replicate layer_count ([] : NodeSet) in
    contact_nodes ← foldlM (seed_mesh model_collision) contact_nodes
                           (meshes storage);
    contact_nodes ← dropNodes cfg model_collision model_avoidance
                              model_internal_guide contact_nodes;
    '(layers, filled) ←
      drawCircles rs layer_outlines model_collision contact_nodes
                  (supportLayers storage, layer_nr_max_filled_layer storage);
    Some (mkStorage (support_tree_enable storage) (meshes storage)
                    layers filled true).
End Pipeline.

(** ** Vocabulary of the further statements *)

(** No two nodes of a layer share a position. *)
Definition unique_positions (nodes : NodeSet) : Prop :=
  NoDup (map position nodes).

(** [raised c c']: the same node, with counters that are not lower. *)
Definition raised (c c' : Node) : Prop :=
  position c' = position c
  ∧ skin_direction c' = skin_direction c
  ∧ to_buildplate c' = to_buildplate c
  ∧ distance_to_top c ≤ distance_to_top c'
  ∧ support_roof_layers_below c ≤ support_roof_layers_below c'.

(** Every node of [nodes] is still in [nodes'], possibly raised. *)
Definition kept_in (nodes nodes' : NodeSet) : Prop :=
  ∀ q c, set_find nodes q = Some c →
         ∃ c', set_find nodes' q = Some c' ∧ raised c c'.

(** The two counters that [insertDroppedNode] folds. *)
Definition counters (node : Node) : Z * Z :=
  (distance_to_top node, support_roof_layers_below node).

(** The buckets hold nodes of the layer, each under its own position. *)
Definition filed_from (nodes : NodeSet) (nodes_per_part : list NodeMap) : Prop :=
  ∀ group entry, group ∈ nodes_per_part → entry ∈ group →
                 entry.1 = position entry.2 ∧ entry.2 ∈ nodes.

(** The squared distance that line 336 measures from a point to a part. *)
Definition part_distance2 `{PolygonOps} (p : Point) (part : PolygonsPart) : Z :=
  vSize2 (point_sub p (location (findClosest p part))).

(** Buckets other than bucket 0 hold nodes that cannot reach the build
    plate. *)
Definition resting_only (nodes_per_part : list NodeMap) : Prop :=
  ∀ k group entry, nodes_per_part !! S k = Some group → entry ∈ group →
                   to_buildplate entry.2 = false.

(** The test of line 409 on a neighbour of [node]. *)
Definition within_reach `{FloatOps} (cfg : Settings) (node : Node)
    (neighbour : Point) : Prop :=
  vSize2 (point_sub neighbour (position node)) < max_move cfg * max_move cfg.

(** A tip as the seeder makes them (lines 546-548 and 558-560). *)
Definition tip (mesh : Mesh) (node : Node) : Prop :=
  distance_to_top node = 0
  ∧ to_buildplate node = true
  ∧ support_roof_layers_below node = support_roof_layers mesh.

(** A layer of the output that counts as filled at line 269. *)
Definition filled_layer (out : SupportLayer) : Prop :=
  support_infill_parts out ≠ [] ∨ support_roof out ≠ [].

(** A part as line 265 builds it: one path, the support line width and the
    wall count of the tree. *)
Definition drawn_part (rs : RenderSettings) (part : SupportInfillPart) : Prop :=
  length (outline part) = 1%nat
  ∧ support_line_width part = line_width rs
  ∧ inset_count_to_generate part = wall_count rs.

#[global] Instance filled_layer_dec (out : SupportLayer)
  : Decision (filled_layer out).
Proof. unfold filled_layer. apply _. Defined.

(** ** Further example inputs *)

Module Rounds.
(** Modelled from the spec: the offset with round joins, on cells, where it
    is the offset by whole cells. *)
#[global] Instance round_ops : RoundOffset := {| offset_round := Cells.grow |}.
End Rounds.

Module Runs.
Import Cells Prim Numbers Rounds Examples.

(** The bar mesh with a branch distance of zero. *)
Definition still_mesh : Mesh :=
  mkMesh (mkAABB (mkPoint 0 0) (mkPoint 10 10)) [[]; []; [bar]] 0 1 0 1.

(** A mesh of two layers, with a top distance of one layer. *)
Definition short_mesh : Mesh :=
  mkMesh (mkAABB (mkPoint 0 0) (mkPoint 10 10)) [[]; [bar]] 5 1 0 1.

(** Support floors two layers high, sampled every zero layers. *)
Definition stalled_floors : RenderSettings :=
  mkRenderSettings 400 1 1 true 0 2.

(** Support floors two layers high, sampled every layer. *)
Definition floors : RenderSettings :=
  mkRenderSettings 400 1 1 true 1 2.

(** Nothing on layer 0, one branch on layer 1, and a roof node on layer 2 of
    three stored layers. *)
Definition roof : Node := mkNode (mkPoint 5 5) 0 false 1 true.
Definition drawn_layers : list NodeSet := [[]; [branch]; [roof]].
Definition blank_layers : list SupportLayer :=
  [blank_layer; blank_layer; blank_layer].

(** A part a multi-part collision area splits into, around (40,40). *)
Definition island : Polygons := [[mkPoint 40 40; mkPoint 41 40]].
Definition islands : list PolygonsPart := [far_away; island].

(** A storage whose only mesh does not ask for tree support. *)
Definition plain_storage : Storage :=
  mkStorage false [mkSliceMesh false bar_mesh] blank_layers (-1) false.

(** A storage that asks for tree support before any layer is stored. *)
Definition empty_storage : Storage := mkStorage true [] [] (-1) false.

(** The bar mesh, asking for tree support, over three blank layers. *)
Definition bar_storage : Storage :=
  mkStorage false [mkSliceMesh true bar_mesh] blank_layers (-1) false.
End Runs.

(** * Properties *)

(** ** [insertDroppedNode] (C7) *)

Lemma insertDroppedNode_fresh nodes node :
  set_find nodes (position node) = None →
  insertDroppedNode nodes node = nodes ++ [node].
Proof.
  induction nodes as [|c rest IH]; simpl; [done|].
  destruct (decide (position c = position node)); [done|].
  intros H. by rewrite IH.
Qed.

Lemma insertDroppedNode_length_conflict nodes node c :
  set_find nodes (position node) = Some c →
  length (insertDroppedNode nodes node) = length nodes.
Proof.
  induction nodes as [|d rest IH]; simpl; [done|].
  destruct (decide (position d = position node)); simpl; [done|].
  intros H. by rewrite IH.
Qed.

Lemma insertDroppedNode_find_same nodes node c :
  set_find nodes (position node) = Some c →
  set_find (insertDroppedNode nodes node) (position node)
  = Some (fold_conflict c node).
Proof.
  induction nodes as [|d rest IH]; simpl; [done|].
  destruct (decide (position d = position node)) as [Heq|Hne]; simpl.
  - intros [= ->]. by rewrite decide_True.
  - intros H. rewrite decide_False by done. auto.
Qed.

Lemma insertDroppedNode_find_other nodes node q :
  q ≠ position node →
  set_find (insertDroppedNode nodes node) q
  = match set_find nodes q with
    | Some c => Some c
    | None => None
    end.
Proof.
  intros Hq. induction nodes as [|d rest IH]; simpl.
  - rewrite decide_False by done. done.
  - destruct (decide (position d = position node)) as [Heq|Hne]; simpl.
    + rewrite Heq. rewrite !decide_False by done. by destruct (set_find rest q).
    + destruct (decide (position d = q)); [done|]. apply IH.
Qed.

Lemma insertDroppedNode_positions_conflict nodes node c :
  set_find nodes (position node) = Some c →
  map position (insertDroppedNode nodes node) = map position nodes.
Proof.
  induction nodes as [|d rest IH]; simpl; [done|].
  destruct (decide (position d = position node)); simpl; [done|].
  intros H. by rewrite IH.
Qed.

(** C7: when a node with the same position is already stored on the target
    layer, [insertDroppedNode] inserts nothing (same length, same positions in
    the same order), the stored node keeps its position, skin direction and
    to_buildplate flag and gets the field-wise maximum of distance_to_top and
    support_roof_layers_below, and every other node is untouched; when no
    node with that position is stored, the new node is added unchanged. *)
Theorem C7_insertDroppedNode_folds_or_inserts (nodes : NodeSet) (node : Node) :
  match set_find nodes (position node) with
  | Some c =>
      length (insertDroppedNode nodes node) = length nodes
      ∧ map position (insertDroppedNode nodes node) = map position nodes
      ∧ (∃ c', set_find (insertDroppedNode nodes node) (position node) = Some c'
               ∧ position c' = position c
               ∧ skin_direction c' = skin_direction c
               ∧ to_buildplate c' = to_buildplate c
               ∧ distance_to_top c'
                 = Z.max (distance_to_top c) (distance_to_top node)
               ∧ support_roof_layers_below c'
                 = Z.max (support_roof_layers_below c)
                         (support_roof_layers_below node))
      ∧ (∀ q, q ≠ position node →
              set_find (insertDroppedNode nodes node) q = set_find nodes q)
  | None => insertDroppedNode nodes node = nodes ++ [node]
  end.
Proof.
  destruct (set_find nodes (position node)) as [c|] eqn:Hfind.
  - split; [by eapply insertDroppedNode_length_conflict|].
    split; [by eapply insertDroppedNode_positions_conflict|].
    split.
    + exists (fold_conflict c node). split; [by apply insertDroppedNode_find_same|].
      done.
    + intros q Hq. rewrite insertDroppedNode_find_other by done.
      by destruct (set_find nodes q).
  - by apply insertDroppedNode_fresh.
Qed.

(** ** Loops that may fail *)

Lemma foldlM_invariant {A B : Type} (P : B → Prop) (f : B → A → option B)
    (l : list A) (b b' : B) :
  (∀ s x s', P s → f s x = Some s' → P s') →
  P b → foldlM f b l = Some b' → P b'.
Proof.
  intros Hstep. revert b. induction l as [|x rest IH]; simpl; intros b Hb Hrun.
  - by simplify_eq.
  - destruct (f b x) as [s|] eqn:Hf; simpl in Hrun; [|done].
    eapply IH; [|done]. by eapply Hstep.
Qed.

Lemma foldlM_app {A B : Type} (f : B → A → option B) (l1 l2 : list A) (b : B) :
  foldlM f b (l1 ++ l2) = (b' ← foldlM f b l1; foldlM f b' l2).
Proof.
  revert b. induction l1 as [|x rest IH]; simpl; intros b; [done|].
  destruct (f b x); simpl; [apply IH|done].
Qed.

(** ** The renderer: roof or support (C9) *)

Section RendererFacts.
Context `{PolygonOps, FloatOps}.


End RendererFacts.

(** ** The dropper *)

Section DropperFacts.
Context `{PolygonOps, SpanningTree, FloatOps}.
Variable cfg : Settings.
Variables model_collision model_avoidance model_internal_guide
  : list (list Polygons).

Local Abbreviation emit' := (emit model_avoidance).
Local Abbreviation pass1' := (pass1_entry cfg model_avoidance model_internal_guide).
Local Abbreviation pass2' :=
  (pass2_entry cfg model_collision model_avoidance model_internal_guide).
Local Abbreviation drop_group' :=
  (drop_group cfg model_collision model_avoidance model_internal_guide).
Local Abbreviation drop_layer_nodes' :=
  (drop_layer_nodes cfg model_collision model_avoidance model_internal_guide).
Local Abbreviation dropNodes_layer' :=
  (dropNodes_layer cfg model_collision model_avoidance model_internal_guide).
Local Abbreviation dropNodes_from' :=
  (dropNodes_from cfg model_collision model_avoidance model_internal_guide).

(** *** Frame: only the layer below is written *)

Lemma written_below_refl layer_nr cn : written_below layer_nr cn cn.
Proof. by split. Qed.

Lemma written_below_trans layer_nr cn1 cn2 cn3 :
  written_below layer_nr cn1 cn2 → written_below layer_nr cn2 cn3 →
  written_below layer_nr cn1 cn3.
Proof.
  intros [Hl1 Hk1] [Hl2 Hk2]. split; [congruence|].
  intros k Hk. by rewrite Hk2, Hk1.
Qed.

Lemma emit_written_below layer_nr sample node v cn cn' :
  emit' layer_nr sample node v cn = Some cn' → written_below layer_nr cn cn'.
Proof.
  unfold emit. intros Hrun.
  destruct (at2 model_avoidance sample (layer_nr - 1)); simpl in Hrun; [|done].
  destruct (cn !! (layer_nr - 1)%nat); simpl in Hrun; [|done].
  injection Hrun as <-. split.
  - by rewrite length_insert.
  - intros k Hk. by rewrite list_lookup_insert_ne.
Qed.

Lemma pass1_entry_written_below group_index layer_nr group td cn entry td' cn' :
  pass1' group_index layer_nr group (td, cn) entry = Some (td', cn') →
  written_below layer_nr cn cn'.
Proof.
  unfold pass1_entry. intros Hrun.
  destruct (set_find td (position entry.2));
    [injection Hrun as <- <-; apply written_below_refl|].
  destruct (adjacentNodes (map fst group) (position entry.2))
    as [|n0 [|n1 more]] eqn:Hadj.
  - simpl in Hrun. injection Hrun as <- <-. apply written_below_refl.
  - destruct (_ && _).
    + destruct (settle _ _ _ _ _ _ _ _ _) as [p|]; simpl in Hrun; [|done].
      destruct (emit' _ _ _ _ _) as [cn2|] eqn:Hemit; simpl in Hrun; [|done].
      injection Hrun as <- <-. by eapply emit_written_below.
    + injection Hrun as <- <-. apply written_below_refl.
  - destruct (1 <? _)%nat.
    + destruct (merge_neighbours _ _ _ _ _) as [[n2 td2]|];
        simpl in Hrun; [|done].
      injection Hrun as <- <-. apply written_below_refl.
    + injection Hrun as <- <-. apply written_below_refl.
Qed.

Lemma pass2_entry_written_below group_index layer_nr group td cn entry cn' :
  pass2' group_index layer_nr group td cn entry = Some cn' →
  written_below layer_nr cn cn'.
Proof.
  unfold pass2_entry. intros Hrun.
  destruct (set_find td (position entry.2));
    [injection Hrun as <-; apply written_below_refl|].
  destruct (too_far_inside _ _ _ _ _) as [[|]|]; simpl in Hrun; [| |done].
  - injection Hrun as <-. apply written_below_refl.
  - destruct (settle _ _ _ _ _ _ _ _ _) as [p|]; simpl in Hrun; [|done].
    by eapply emit_written_below.
Qed.

Lemma drop_group_written_below layer_nr cn indexed_group cn' :
  drop_group' layer_nr cn indexed_group = Some cn' →
  written_below layer_nr cn cn'.
Proof.
  destruct indexed_group as [group_index group]. unfold drop_group.
  intros Hrun.
  destruct (foldlM _ _ group) as [[td cn1]|] eqn:Hpass1 in Hrun;
    simpl in Hrun; [|done].
  assert (written_below layer_nr cn cn1) as Hfirst.
  { apply (foldlM_invariant (λ st, written_below layer_nr cn st.2)
             _ _ _ _) with (3 := Hpass1); [|apply written_below_refl].
    intros [td0 cn0] entry [td2 cn2] Hinv Hstep. simpl in *.
    eapply written_below_trans; [done|].
    by eapply pass1_entry_written_below. }
  eapply written_below_trans; [exact Hfirst|].
  apply (foldlM_invariant (written_below layer_nr cn1) _ _ _ _)
    with (3 := Hrun); [|apply written_below_refl].
  intros cn0 entry cn2 Hinv Hstep.
  eapply written_below_trans; [done|].
  by eapply pass2_entry_written_below.
Qed.

Lemma drop_layer_nodes_written_below layer_nr parts nodes cn cn' :
  drop_layer_nodes' layer_nr parts nodes cn = Some cn' →
  written_below layer_nr cn cn'.
Proof.
  unfold drop_layer_nodes. intros Hrun.
  apply (foldlM_invariant (written_below layer_nr cn) _ _ _ _)
    with (3 := Hrun); [|apply written_below_refl].
  intros cn0 g cn2 Hinv Hstep.
  eapply written_below_trans; [done|]. by eapply drop_group_written_below.
Qed.

Lemma dropNodes_layer_written_below layer_nr cn cn' :
  dropNodes_layer' layer_nr cn = Some cn' → written_below layer_nr cn cn'.
Proof.
  unfold dropNodes_layer. intros Hrun.
  destruct (at2 model_avoidance 0 layer_nr); simpl in Hrun; [|done].
  destruct (cn !! layer_nr); simpl in Hrun; [|done].
  by eapply drop_layer_nodes_written_below.
Qed.

(** The rest of the loop never comes back to a layer it has left. *)
Lemma dropNodes_from_keeps_upper layer_nr cn cn' k :
  dropNodes_from' layer_nr cn = Some cn' → (layer_nr ≤ k)%nat →
  cn' !! k = cn !! k.
Proof.
  revert cn. induction layer_nr as [|below IH]; simpl; intros cn Hrun Hk.
  - by simplify_eq.
  - destruct (dropNodes_layer' (S below) cn) as [cn1|] eqn:Hlayer;
      simpl in Hrun; [|done].
    rewrite (IH cn1) by (done || lia).
    apply dropNodes_layer_written_below in Hlayer as [_ Hother].
    apply Hother. lia.
Qed.

(** C10: one iteration of the layer loop, for a layer above layer 0, leaves
    the contact nodes of the layer it processes as they were; it keeps the
    number of layers and writes to no layer other than the one below; so the
    renderer, which reads a layer's nodes from the same vector, draws that
    layer from the nodes it had before the iteration, merged or marked
    deleted ones included. *)
Theorem C10_layer_loop_keeps_processed_layer
    (layer_nr : nat) (contact_nodes contact_nodes' : list NodeSet) :
  (0 < layer_nr)%nat →
  dropNodes_layer' layer_nr contact_nodes = Some contact_nodes' →
  contact_nodes' !! layer_nr = contact_nodes !! layer_nr
  ∧ length contact_nodes' = length contact_nodes
  ∧ (∀ k, k ≠ (layer_nr - 1)%nat → contact_nodes' !! k = contact_nodes !! k)
  ∧ ∀ rs layer_outlines storage,
      draw_step rs layer_outlines model_collision contact_nodes' storage layer_nr
      = draw_step rs layer_outlines model_collision contact_nodes storage
                  layer_nr.
Proof.
  intros Hpos Hrun.
  apply dropNodes_layer_written_below in Hrun as [Hlen Hother].
  assert (contact_nodes' !! layer_nr = contact_nodes !! layer_nr) as Hsame
    by (apply Hother; lia).
  split; [done|]. split; [done|]. split; [done|].
  intros rs layer_outlines [supportLayers filled]. unfold draw_step.
  by rewrite Hsame.
Qed.
End DropperFacts.

Section BuildplateOnly.
Context `{PolygonOps, SpanningTree, FloatOps}.
Variable cfg : Settings.
Variables model_collision model_avoidance model_internal_guide
  : list (list Polygons).

Local Abbreviation drop_layer_nodes' :=
  (drop_layer_nodes cfg model_collision model_avoidance model_internal_guide).
Local Abbreviation dropNodes_layer' :=
  (dropNodes_layer cfg model_collision model_avoidance model_internal_guide).

(** *** Build-plate-only support *)

Local Abbreviation kept nodes := (filter (λ n, to_buildplate n = true) nodes).

Lemma assign_node_unreachable parts nodes_per_part node :
  support_type cfg = PLATFORM_ONLY → to_buildplate node = false →
  assign_node cfg parts nodes_per_part node = nodes_per_part.
Proof.
  intros Htype Hbp. unfold assign_node, support_rests_on_model.
  rewrite Htype, Hbp. by rewrite bool_decide_eq_false_2.
Qed.

Lemma assign_nodes_kept parts nodes nodes_per_part :
  support_type cfg = PLATFORM_ONLY →
  fold_left (assign_node cfg parts) nodes nodes_per_part
  = fold_left (assign_node cfg parts) (kept nodes) nodes_per_part.
Proof.
  intros Htype. revert nodes_per_part.
  induction nodes as [|n rest IH]; intros nodes_per_part; [done|].
  rewrite filter_cons. simpl. case_decide as Hbp.
  - simpl. apply IH.
  - rewrite assign_node_unreachable by (done || by destruct (to_buildplate n)).
    apply IH.
Qed.

Lemma map_assign_reachable group p node :
  to_buildplate node = true →
  Forall (λ entry : Point * Node, to_buildplate entry.2 = true) group →
  Forall (λ entry : Point * Node, to_buildplate entry.2 = true)
         (map_assign group p node).
Proof.
  intros Hbp. induction group as [|[q c] rest IH]; simpl; intros Hall.
  - by repeat constructor.
  - apply Forall_cons in Hall as [Hc Hrest].
    case_decide; constructor; auto.
Qed.

Lemma alter_reachable nodes_per_part i node :
  to_buildplate node = true → reachable_buckets nodes_per_part →
  reachable_buckets
    (alter (λ g, map_assign g (position node) node) i nodes_per_part).
Proof.
  intros Hbp Hall. unfold reachable_buckets in *.
  apply Forall_alter; [done|].
  intros g _ Hg. by apply map_assign_reachable.
Qed.

Lemma assign_node_reachable parts nodes_per_part node :
  support_type cfg = PLATFORM_ONLY → reachable_buckets nodes_per_part →
  reachable_buckets (assign_node cfg parts nodes_per_part node).
Proof.
  intros Htype Hall. unfold assign_node, support_rests_on_model.
  rewrite Htype, bool_decide_eq_false_2 by done. simpl.
  destruct (to_buildplate node) eqn:Hbp; simpl; [|done].
  by apply alter_reachable.
Qed.

Lemma assign_nodes_reachable parts nodes start :
  support_type cfg = PLATFORM_ONLY → reachable_buckets start →
  reachable_buckets (fold_left (assign_node cfg parts) nodes start).
Proof.
  intros Htype. revert start.
  induction nodes as [|n rest IH]; simpl; intros start Hstart; [done|].
  apply IH. by apply assign_node_reachable.
Qed.

Lemma group_nodes_reachable parts nodes :
  support_type cfg = PLATFORM_ONLY →
  reachable_buckets (group_nodes cfg parts nodes).
Proof.
  intros Htype. apply assign_nodes_reachable; [done|].
  apply Forall_replicate. constructor.
Qed.

(** C8: when support_type is buildplate-only, the iteration for a layer
    above layer 0 is blind to the nodes of that layer whose to_buildplate
    flag is false: the buckets are the ones built from the remaining nodes
    alone, no bucket holds such a node, and the contact nodes after the
    iteration are the ones obtained from the remaining nodes alone. *)
Theorem C8_buildplate_only_drops_unreachable_nodes
    (layer_nr : nat) (parts : list PolygonsPart) (nodes : NodeSet)
    (contact_nodes : list NodeSet) :
  (0 < layer_nr)%nat →
  support_type cfg = PLATFORM_ONLY →
  group_nodes cfg parts nodes = group_nodes cfg parts (kept nodes)
  ∧ (∀ group entry, group ∈ group_nodes cfg parts nodes → entry ∈ group →
       to_buildplate entry.2 = true)
  ∧ drop_layer_nodes' layer_nr parts nodes contact_nodes
    = drop_layer_nodes' layer_nr parts (kept nodes) contact_nodes
  ∧ (contact_nodes !! layer_nr = Some nodes →
     dropNodes_layer' layer_nr contact_nodes
     = (avoidance ← at2 model_avoidance 0 layer_nr;
        drop_layer_nodes' layer_nr (splitIntoParts avoidance) (kept nodes)
                          contact_nodes)).
Proof.
  intros _ Htype.
  assert (group_nodes cfg parts nodes = group_nodes cfg parts (kept nodes))
    as Hgroups by (by apply assign_nodes_kept).
  split; [done|]. split; [|split].
  - intros group entry Hgroup Hentry.
    pose proof (group_nodes_reachable parts nodes Htype) as Hall.
    unfold reachable_buckets in Hall.
    rewrite Forall_forall in Hall. specialize (Hall group Hgroup).
    rewrite Forall_forall in Hall. by apply Hall.
  - unfold drop_layer_nodes. by rewrite Hgroups.
  - intros Hnodes. unfold dropNodes_layer.
    destruct (at2 model_avoidance 0 layer_nr) as [avoidance|]; simpl; [|done].
    rewrite Hnodes. simpl. unfold drop_layer_nodes, group_nodes.
    by rewrite (assign_nodes_kept (splitIntoParts avoidance) nodes _ Htype).
Qed.
End BuildplateOnly.

(** ** Avoidance propagation (C4) and the slope bound (C5) *)

Section AvoidanceFacts.
Context `{PolygonOps, FloatOps}.
Variable cfg : Settings.
Variable layer_count : nat.

Local Abbreviation propagated' := (propagated cfg).

Lemma propagate_layer_step collision_sample avoidance_sample layer_nr
    below collision :
  avoidance_sample !! (layer_nr - 1)%nat = Some below →
  collision_sample !! layer_nr = Some collision →
  propagate_layer cfg collision_sample avoidance_sample layer_nr
  = Some (avoidance_sample ++ [propagated' below collision]).
Proof. intros Hb Hc. unfold propagate_layer. by rewrite Hb, Hc. Qed.

Lemma propagate_layers_run collision_sample count :
  ∀ start avoidance_sample,
    length avoidance_sample = start → (0 < start)%nat →
    (start + count ≤ length collision_sample)%nat →
    ∃ result,
      foldlM (propagate_layer cfg collision_sample) avoidance_sample
             (seq start count) = Some result
      ∧ length result = (start + count)%nat
      ∧ (∀ l, (l < start)%nat → result !! l = avoidance_sample !! l)
      ∧ (∀ l, (start ≤ l < start + count)%nat →
           ∃ below collision,
             result !! (l - 1)%nat = Some below
             ∧ collision_sample !! l = Some collision
             ∧ result !! l = Some (propagated' below collision)).
Proof.
  induction count as [|count IH]; intros start acc Hlen Hpos Hfit; simpl.
  - exists acc. split; [done|]. split; [lia|]. split; [done|].
    intros l Hl. lia.
  - destruct (lookup_lt_is_Some_2 acc (start - 1)) as [below Hbelow]; [lia|].
    destruct (lookup_lt_is_Some_2 collision_sample start) as [c Hc]; [lia|].
    rewrite (propagate_layer_step _ _ _ _ _ Hbelow Hc). simpl.
    destruct (IH (S start) (acc ++ [propagated' below c]))
      as (result & Hrun & Hlen' & Hold & Hnew);
      [rewrite length_app; simpl; lia | lia | lia |].
    exists result. split; [exact Hrun|]. split; [lia|]. split.
    + intros l Hl. rewrite Hold by lia. apply lookup_app_l. lia.
    + intros l Hl. destruct (decide (l = start)) as [->|Hne].
      * exists below, c. split; [|split; [done|]].
        -- rewrite Hold by lia. rewrite lookup_app_l by lia. done.
        -- rewrite Hold by lia. rewrite lookup_app_r by lia.
           by replace (start - length acc)%nat with 0%nat by lia.
      * apply Hnew. lia.
Qed.

Lemma propagate_sample_run collision_sample :
  (S (layer_count - 1) ≤ length collision_sample)%nat →
  ∃ avoidance_sample,
    propagate_sample cfg layer_count (collision_sample, [])
    = Some avoidance_sample
    ∧ length avoidance_sample = S (layer_count - 1)
    ∧ avoidance_sample !! 0%nat = collision_sample !! 0%nat
    ∧ (∀ l, (1 ≤ l < S (layer_count - 1))%nat →
         ∃ below collision,
           avoidance_sample !! (l - 1)%nat = Some below
           ∧ collision_sample !! l = Some collision
           ∧ avoidance_sample !! l = Some (propagated' below collision)).
Proof.
  intros Hfit. unfold propagate_sample.
  destruct (lookup_lt_is_Some_2 collision_sample 0) as [bottom Hbottom]; [lia|].
  rewrite Hbottom. simpl.
  destruct (propagate_layers_run collision_sample (layer_count - 1) 1 [bottom])
    as (result & Hrun & Hlen & Hold & Hnew); [done|lia|lia|].
  exists result. split; [exact Hrun|]. split; [lia|]. split.
  - by rewrite Hold by lia.
  - intros l Hl. apply Hnew. lia.
Qed.

(** C4: started on an empty avoidance vector, with at least as many
    collision layers per radius sample as there are support layers,
    [propagateCollisionAreas] returns one avoidance sample per collision
    sample; layer 0 of it is the collision layer 0, every layer l ≥ 1 is
    smooth(offset(avoidance[s][l−1], −maximum_move_distance), 5) united with
    collision[s][l], and, union containing its second operand, every point
    inside collision[s][l] is inside avoidance[s][l]. *)
Theorem C4_avoidance_recurrence_and_inclusion
    (model_collision : list (list Polygons)) :
  (∀ a b p border, inside b p border = true →
                   inside (unionPolygons a b) p border = true) →
  Forall (λ c, S (layer_count - 1) ≤ length c)%nat model_collision →
  ∃ model_avoidance,
    propagateCollisionAreas cfg layer_count model_collision []
    = Some model_avoidance
    ∧ length model_avoidance = length model_collision
    ∧ ∀ s collision_sample,
        model_collision !! s = Some collision_sample →
        ∃ avoidance_sample,
          model_avoidance !! s = Some avoidance_sample
          ∧ length avoidance_sample = S (layer_count - 1)
          ∧ avoidance_sample !! 0%nat = collision_sample !! 0%nat
          ∧ (∀ l, (1 ≤ l < S (layer_count - 1))%nat →
               ∃ below collision,
                 avoidance_sample !! (l - 1)%nat = Some below
                 ∧ collision_sample !! l = Some collision
                 ∧ avoidance_sample !! l
                   = Some (unionPolygons
                             (smooth
                                (offset below
                                   (- maximum_move_distance
                                        (support_tree_angle cfg)
                                        (layer_height cfg))) 5)
                             collision))
          ∧ (∀ l collision avoidance p border,
               collision_sample !! l = Some collision →
               avoidance_sample !! l = Some avoidance →
               inside collision p border = true →
               inside avoidance p border = true).
Proof.
  intros Hunion Hfit. unfold propagateCollisionAreas.
  assert (resize (length model_collision) [] ([] : list (list Polygons))
          = replicate (length model_collision) []) as -> by apply resize_nil.
  set (samples := zip model_collision (replicate (length model_collision) [])).
  assert (∀ s sample, samples !! s = Some sample →
            ∃ c, model_collision !! s = Some c ∧ sample = (c, [])) as Hsamples.
  { intros s [c a] Hs. unfold samples in Hs.
    apply lookup_zip_with_Some in Hs as (c' & a' & [= -> ->] & Hc & Ha).
    apply lookup_replicate in Ha as [-> _]. eauto. }
  assert (length samples = length model_collision) as Hlen.
  { unfold samples. rewrite length_zip_with, length_replicate. lia. }
  destruct (mapM (propagate_sample cfg layer_count) samples)
    as [model_avoidance|] eqn:Hrun.
  2:{ apply mapM_None_1, Exists_exists in Hrun as ([c a] & Hin & Hnone).
      apply list_elem_of_lookup in Hin as [s Hs].
      destruct (Hsamples _ _ Hs) as (c' & Hc & [= -> ->]).
      rewrite Forall_forall in Hfit.
      destruct (propagate_sample_run c') as (r & Hr & _);
        [apply Hfit; by eapply list_elem_of_lookup_2|].
      congruence. }
  exists model_avoidance. split; [done|].
  apply mapM_Some_1 in Hrun.
  split; [by rewrite <- (Forall2_length _ _ _ Hrun)|].
  intros s c Hc.
  assert (samples !! s = Some (c, [])) as Hs.
  { unfold samples. apply lookup_zip_with_Some. exists c, [].
    split; [done|]. split; [done|]. apply lookup_replicate. split; [done|].
    by eapply lookup_lt_Some. }
  destruct (Forall2_lookup_l _ _ _ _ _ Hrun Hs) as (a & Ha & Hsample).
  exists a. split; [done|].
  rewrite Forall_forall in Hfit.
  destruct (propagate_sample_run c) as (r & Hr & Hrlen & Hr0 & Hrec);
    [apply Hfit; by eapply list_elem_of_lookup_2|].
  assert (r = a) as -> by congruence.
  split; [done|]. split; [done|]. split; [exact Hrec|].
  intros l collision avoidance p border Hcl Hal Hin.
  destruct l as [|l].
  - rewrite Hr0, Hcl in Hal. by simplify_eq.
  - destruct (Hrec (S l)) as (below & c' & _ & Hc' & Ha').
    { apply lookup_lt_Some in Hal. lia. }
    rewrite Hcl in Hc'. rewrite Hal in Ha'. simplify_eq.
    by apply Hunion.
Qed.
End AvoidanceFacts.

(** The double nearest to π/2, which is what a setting of 90 degrees
    becomes in radians. *)
Lemma right_angle_below_90 : (right_angle < 90)%Q.
Proof. reflexivity. Qed.

(** Two radians are at least a right angle, and well below 90. *)
Lemma two_radians_reach_right_angle : (PI / 2 <= 2)%R ∧ (2 < 90)%Q.
Proof. split; [pose proof PI_4; lra | reflexivity]. Qed.

(** C5, as the code has it: the sentinel is chosen by comparing the angle in
    radians with the number 90, so every angle below 90 radians, the right
    angle and all obtuse angles included, takes the tangent branch; the
    sentinel is returned from 90 radians on. *)
Theorem C5_sentinel_threshold_is_90_radians `{FloatOps}
    (angle : Q) (layer_height : Z) :
  (angle < 90)%Q →
  maximum_move_distance angle layer_height = tan_times angle layer_height.
Proof.
  intros Hlt. unfold maximum_move_distance.
  destruct (Qlt_le_dec angle 90) as [_|Hge]; [done|].
  exfalso. by apply (Qlt_not_le _ _ Hlt).
Qed.

Lemma maximum_move_distance_sentinel `{FloatOps} (angle : Q) (layer_height : Z) :
  (90 <= angle)%Q → maximum_move_distance angle layer_height = coord_max.
Proof.
  intros Hge. unfold maximum_move_distance.
  destruct (Qlt_le_dec angle 90) as [Hlt|_]; [|done].
  exfalso. by apply (Qlt_not_le _ _ Hlt).
Qed.

(** ** Contact seeding (C3) *)

Section SeederFacts.
Context `{PolygonOps, FloatOps}.
Variable mesh : Mesh.
Variable collision_areas : list Polygons.



End SeederFacts.

Section SeederExamples.
Import Cells Prim Numbers Examples.


End SeederExamples.

(** ** The build-plate bucket: dyads (C1) and absorbing nodes (C2) *)

Section DyadFacts.
Context `{PolygonOps, SpanningTree, FloatOps}.
Variable cfg : Settings.
Variables model_collision model_avoidance model_internal_guide
  : list (list Polygons).

Local Abbreviation drop_at' := (drop_at cfg model_avoidance model_internal_guide).

Lemma vSize2_sub_comm (p q : Point) :
  vSize2 (point_sub p q) = vSize2 (point_sub q p).
Proof. unfold vSize2, point_sub. simpl. ring. Qed.

Lemma point_add_comm (p q : Point) : point_add p q = point_add q p.
Proof. unfold point_add. f_equal; ring. Qed.

(** Lines 371-403 for a node whose only neighbour is close and has no other
    neighbour: a node is dropped from the midpoint and [to_delete] is left
    as it was. *)
Lemma pass1_entry_dyad layer_nr group to_delete contact_nodes p node other :
  set_find to_delete (position node) = None →
  adjacentNodes (map fst group) (position node) = [other] →
  length (adjacentNodes (map fst group) other) = 1%nat →
  vSize2 (point_sub other (position node)) < max_move cfg * max_move cfg →
  pass1_entry cfg model_avoidance model_internal_guide 0 layer_nr group
              (to_delete, contact_nodes) (p, node)
  = (contact_nodes ←
       drop_at' layer_nr node
                (point_div (point_add (position node) other) 2) contact_nodes;
     Some (to_delete, contact_nodes)).
Proof.
  intros Hkept Hadj Hleaf Hclose. unfold pass1_entry, drop_at. simpl.
  rewrite Hkept, Hadj, Hleaf.
  rewrite (proj2 (Z.ltb_lt _ _) Hclose). simpl.
  destruct (settle _ _ _ _ _ _ _ _ _) as [v|]; simpl; [|done].
  by destruct (emit _ _ _ _ _ _).
Qed.

(** Lines 420-483 for a node of bucket 0 that is not marked deleted and
    whose only neighbour is close: it does not move and is dropped from its
    own position. *)
Lemma pass2_entry_close_leaf layer_nr group to_delete contact_nodes p node other :
  set_find to_delete (position node) = None →
  adjacentNodes (map fst group) (position node) = [other] →
  vSize2 (point_sub other (position node)) < max_move cfg * max_move cfg →
  pass2_entry cfg model_collision model_avoidance model_internal_guide
              0 layer_nr group to_delete contact_nodes (p, node)
  = drop_at' layer_nr node (position node) contact_nodes.
Proof.
  intros Hkept Hadj Hclose. unfold pass2_entry, drop_at. simpl.
  rewrite Hkept. unfold next_layer_vertex. rewrite Hadj.
  rewrite (proj2 (Z.leb_gt _ _) Hclose). done.
Qed.

(** The two passes on a bucket 0 that is one dyad. *)
Lemma drop_group_dyad (layer_nr : nat) (a b : Node) (contact_nodes : list NodeSet) :
  adjacentNodes [position a; position b] (position a) = [position b] →
  adjacentNodes [position a; position b] (position b) = [position a] →
  vSize2 (point_sub (position b) (position a)) < max_move cfg * max_move cfg →
  let midpoint := point_div (point_add (position a) (position b)) 2 in
  drop_group cfg model_collision model_avoidance model_internal_guide
             layer_nr contact_nodes
             (0%nat, [(position a, a); (position b, b)])
  = (contact_nodes ← drop_at' layer_nr a midpoint contact_nodes;
     contact_nodes ← drop_at' layer_nr b midpoint contact_nodes;
     contact_nodes ← drop_at' layer_nr a (position a) contact_nodes;
     drop_at' layer_nr b (position b) contact_nodes).
Proof.
  intros Hadj_a Hadj_b Hclose midpoint.
  assert (vSize2 (point_sub (position a) (position b))
          < max_move cfg * max_move cfg) as Hclose'
    by (by rewrite vSize2_sub_comm).
  unfold drop_group. cbn [foldlM].
  rewrite (pass1_entry_dyad layer_nr _ [] contact_nodes _ a (position b));
    [|done|done|by (cbn [map fst]; rewrite Hadj_b)|done].
  fold midpoint.
  destruct (drop_at' layer_nr a midpoint contact_nodes) as [cn1|];
    cbn [mbind option_bind]; [|done].
  rewrite (pass1_entry_dyad layer_nr _ [] cn1 _ b (position a));
    [|done|done|by (cbn [map fst]; rewrite Hadj_a)|done].
  rewrite (point_add_comm (position b) (position a)). fold midpoint.
  destruct (drop_at' layer_nr b midpoint cn1) as [cn2|];
    cbn [mbind option_bind foldlM]; [|done].
  rewrite (pass2_entry_close_leaf layer_nr _ [] cn2 _ a (position b));
    [|done|done|done].
  destruct (drop_at' layer_nr a (position a) cn2) as [cn3|];
    cbn [mbind option_bind]; [|done].
  rewrite (pass2_entry_close_leaf layer_nr _ [] cn3 _ b (position a));
    [|done|done|done].
  by destruct (drop_at' layer_nr b (position b) cn3).
Qed.

(** Buckets without nodes leave the contact nodes alone. *)
Lemma drop_group_empty_buckets layer_nr contact_nodes first count :
  foldlM (drop_group cfg model_collision model_avoidance model_internal_guide
                     layer_nr)
         contact_nodes (zip (seq first count) (replicate count []))
  = Some contact_nodes.
Proof.
  revert first. induction count as [|count IH]; intros first; [done|].
  simpl. apply IH.
Qed.

(** Two nodes that can reach the build plate share bucket 0, whatever the
    parts of the avoidance area are. *)
Lemma group_nodes_dyad parts (a b : Node) :
  to_buildplate a = true → to_buildplate b = true →
  position a ≠ position b →
  group_nodes cfg parts [a; b]
  = [(position a, a); (position b, b)] :: replicate (length parts) [].
Proof.
  intros Ha Hb Hdistinct. unfold group_nodes, assign_node. simpl.
  rewrite Ha, Hb, !andb_false_r. simpl.
  by rewrite decide_False.
Qed.

(** C1, on the code: for a layer above layer 0 whose nodes are one dyad of
    bucket 0, closer to each other than maximum_move_distance, the iteration
    drops four nodes onto layer l-1, in this order: one from the midpoint
    with the first member's counters, one from the midpoint with the second
    member's counters (folded into the former by [insertDroppedNode] when
    both settle on the same position, which gives 1 + the maximum), and
    then, because the first pass leaves [to_delete] empty, one from each
    member's own position. *)
Theorem C1_dyad_members_are_dropped_too
    (layer_nr : nat) (a b : Node) (avoidance : Polygons)
    (contact_nodes : list NodeSet) :
  (0 < layer_nr)%nat →
  contact_nodes !! layer_nr = Some [a; b] →
  at2 model_avoidance 0 layer_nr = Some avoidance →
  to_buildplate a = true → to_buildplate b = true →
  position a ≠ position b →
  adjacentNodes [position a; position b] (position a) = [position b] →
  adjacentNodes [position a; position b] (position b) = [position a] →
  vSize2 (point_sub (position b) (position a)) < max_move cfg * max_move cfg →
  let midpoint := point_div (point_add (position a) (position b)) 2 in
  dropNodes_layer cfg model_collision model_avoidance model_internal_guide
                  layer_nr contact_nodes
  = (contact_nodes ← drop_at' layer_nr a midpoint contact_nodes;
     contact_nodes ← drop_at' layer_nr b midpoint contact_nodes;
     contact_nodes ← drop_at' layer_nr a (position a) contact_nodes;
     drop_at' layer_nr b (position b) contact_nodes).
Proof.
  intros _ Hlayer Havoid Ha Hb Hdistinct Hadj_a Hadj_b Hclose midpoint.
  unfold dropNodes_layer. rewrite Havoid. cbn [mbind option_bind].
  rewrite Hlayer. cbn [mbind option_bind].
  unfold drop_layer_nodes.
  rewrite (group_nodes_dyad _ a b Ha Hb Hdistinct).
  cbn [length seq zip zip_with foldlM].
  rewrite (drop_group_dyad layer_nr a b contact_nodes Hadj_a Hadj_b Hclose).
  fold midpoint.
  destruct (drop_at' layer_nr a midpoint contact_nodes) as [cn1|];
    cbn [mbind option_bind]; [|done].
  destruct (drop_at' layer_nr b midpoint cn1) as [cn2|];
    cbn [mbind option_bind]; [|done].
  destruct (drop_at' layer_nr a (position a) cn2) as [cn3|];
    cbn [mbind option_bind]; [|done].
  destruct (drop_at' layer_nr b (position b) cn3) as [cn4|];
    cbn [mbind option_bind]; [|done].
  rewrite length_replicate. apply drop_group_empty_buckets.
Qed.

(** Lines 420-483 for any node of bucket 0 that is not marked deleted: the
    node dropped carries the counters of the node stored in the bucket. *)
Lemma pass2_entry_bucket0 layer_nr group to_delete contact_nodes p node :
  set_find to_delete (position node) = None →
  pass2_entry cfg model_collision model_avoidance model_internal_guide
              0 layer_nr group to_delete contact_nodes (p, node)
  = drop_at' layer_nr node (next_layer_vertex cfg (map fst group) node)
             contact_nodes.
Proof. intros Hkept. unfold pass2_entry, drop_at. simpl. by rewrite Hkept. Qed.

(** Whatever [drop_at] inserts carries the node's own distance_to_top + 1
    and roof count - 1. *)
Lemma drop_at_inserts layer_nr node v contact_nodes contact_nodes' :
  drop_at' layer_nr node v contact_nodes = Some contact_nodes' →
  ∃ target v' reaches,
    contact_nodes !! (layer_nr - 1)%nat = Some target
    ∧ contact_nodes'
      = <[(layer_nr - 1)%nat :=
            insertDroppedNode target
              (mkNode v' (size_t_wrap (distance_to_top node + 1))
                      (skin_direction node)
                      (support_roof_layers_below node - 1) reaches)]>
          contact_nodes.
Proof.
  unfold drop_at, emit. intros Hrun.
  destruct (settle _ _ _ _ _ _ _ _ _) as [v'|]; simpl in Hrun; [|done].
  destruct (at2 model_avoidance _ _) as [avoid|]; simpl in Hrun; [|done].
  destruct (contact_nodes !! (layer_nr - 1)%nat) as [target|];
    simpl in Hrun; [|done].
  injection Hrun as <-. by eexists _, _, _.
Qed.

(** C2, on the code: for a node of bucket 0 with more than one neighbour
    that is not marked deleted, the first pass hands the node's copy to the
    absorbing loop and keeps nothing of the result but [to_delete]: the
    contact nodes are untouched and the copy that received the maxima is
    dropped; the second pass, which reads the node from the bucket, drops a
    node with that node's own distance_to_top + 1 and roof count - 1. *)
Theorem C2_absorbed_maxima_are_not_dropped
    (layer_nr : nat) (group : NodeMap) (to_delete : NodeSet)
    (contact_nodes : list NodeSet) (p : Point) (node : Node)
    (neighbour1 neighbour2 : Point) (more : list Point) :
  set_find to_delete (position node) = None →
  adjacentNodes (map fst group) (position node)
  = neighbour1 :: neighbour2 :: more →
  pass1_entry cfg model_avoidance model_internal_guide 0 layer_nr group
              (to_delete, contact_nodes) (p, node)
  = (merged ← merge_neighbours cfg group (neighbour1 :: neighbour2 :: more)
                               node to_delete;
     Some (merged.2, contact_nodes))
  ∧ ∀ to_delete' contact_nodes',
      set_find to_delete' (position node) = None →
      pass2_entry cfg model_collision model_avoidance model_internal_guide
                  0 layer_nr group to_delete' contact_nodes (p, node)
      = Some contact_nodes' →
      ∃ target v reaches,
        contact_nodes !! (layer_nr - 1)%nat = Some target
        ∧ contact_nodes'
          = <[(layer_nr - 1)%nat :=
                insertDroppedNode target
                  (mkNode v (size_t_wrap (distance_to_top node + 1))
                          (skin_direction node)
                          (support_roof_layers_below node - 1) reaches)]>
              contact_nodes.
Proof.
  intros Hkept Hadj. split.
  - unfold pass1_entry. cbn [snd]. rewrite Hkept, Hadj.
    by destruct (merge_neighbours cfg group (neighbour1 :: neighbour2 :: more)
                                  node to_delete) as [[merged deleted]|].
  - intros to_delete' contact_nodes' Hkept' Hrun.
    rewrite pass2_entry_bucket0 in Hrun by done.
    by eapply drop_at_inserts.
Qed.
End DyadFacts.

(** ** The dropper on the examples *)

Section DropperExamples.
Import Cells Prim Numbers Examples.

(** The dyad example, run: the two nodes of [dyad_layers] are each other's
    only neighbour and 10 microns apart, well within the 54 microns a branch
    may move; layer 0 ends with the merged node at the midpoint (5,0), with
    distance_to_top 1 + max(0,3) and roof count max(0,2) - 1, and with one
    more node under each member. *)
Lemma dyad_layer_run :
  dropNodes_layer (settings EVERYWHERE) open_field open_field no_guide
                  1 dyad_layers
  = Some [[mkNode (mkPoint 5 0) 4 false 1 true;
           mkNode (mkPoint 0 0) 1 false (-1) true;
           mkNode (mkPoint 10 0) 4 true 1 true];
          [dyad_a; dyad_b]].
Proof. vm_compute. reflexivity. Qed.

Lemma C1_dyad_witness :
  (0 < 1)%nat
  ∧ dyad_layers !! 1%nat = Some [dyad_a; dyad_b]
  ∧ at2 open_field 0 1 = Some far_away
  ∧ to_buildplate dyad_a = true
  ∧ to_buildplate dyad_b = true
  ∧ position dyad_a ≠ position dyad_b
  ∧ adjacentNodes [position dyad_a; position dyad_b] (position dyad_a)
    = [position dyad_b]
  ∧ adjacentNodes [position dyad_a; position dyad_b] (position dyad_b)
    = [position dyad_a]
  ∧ vSize2 (point_sub (position dyad_b) (position dyad_a))
    < max_move (settings EVERYWHERE) * max_move (settings EVERYWHERE)
  ∧ dropNodes_layer (settings EVERYWHERE) open_field open_field no_guide
                    1 dyad_layers
    = Some [[mkNode (mkPoint 5 0) 4 false 1 true;
             mkNode (mkPoint 0 0) 1 false (-1) true;
             mkNode (mkPoint 10 0) 4 true 1 true];
            [dyad_a; dyad_b]].
Proof.
  assert (position dyad_a ≠ position dyad_b) as Hdistinct by discriminate.
  assert (vSize2 (point_sub (position dyad_b) (position dyad_a))
          < max_move (settings EVERYWHERE) * max_move (settings EVERYWHERE))
    as Hclose by (vm_compute; reflexivity).
  assert (adjacentNodes [position dyad_a; position dyad_b] (position dyad_a)
          = [position dyad_b]) as Hadj_a by (vm_compute; reflexivity).
  assert (adjacentNodes [position dyad_a; position dyad_b] (position dyad_b)
          = [position dyad_a]) as Hadj_b by (vm_compute; reflexivity).
  split; [lia|]. split; [reflexivity|]. split; [reflexivity|].
  split; [reflexivity|]. split; [reflexivity|].
  split; [exact Hdistinct|]. split; [exact Hadj_a|]. split; [exact Hadj_b|].
  split; [exact Hclose|].
  etrans;
    [exact (C1_dyad_members_are_dropped_too
              (settings EVERYWHERE) open_field open_field no_guide
              1 dyad_a dyad_b far_away dyad_layers (Nat.lt_0_succ 0)
              eq_refl eq_refl eq_refl eq_refl Hdistinct Hadj_a Hadj_b Hclose)|].
  vm_compute. reflexivity.
Defined.

(** The row example, run: the middle node has both outer nodes as
    neighbours within reach.  The first pass takes the maxima
    (distance_to_top 5, roof count 3) into its copy of the middle node and
    marks the outer nodes deleted; the node dropped for the middle node has
    distance_to_top 0 + 1 and roof count 0 - 1, not 6 and 2. *)
Lemma row_layer_run :
  merge_neighbours (settings EVERYWHERE) row_group
    [position row_left; position row_right] row_middle []
  = Some (mkNode (mkPoint 10 0) 5 false 3 true, [row_left; row_right])
  ∧ dropNodes_layer (settings EVERYWHERE) open_field open_field no_guide
                    1 row_layers
    = Some [[mkNode (mkPoint 10 0) 1 false (-1) true];
            [row_left; row_middle; row_right]].
Proof. split; vm_compute; reflexivity. Qed.

Lemma C2_row_witness :
  set_find [] (position row_middle) = None
  ∧ adjacentNodes (map fst row_group) (position row_middle)
    = [position row_left; position row_right]
  ∧ pass1_entry (settings EVERYWHERE) open_field no_guide 0 1 row_group
                ([], row_layers) (position row_middle, row_middle)
    = Some ([row_left; row_right], row_layers)
  ∧ pass2_entry (settings EVERYWHERE) open_field open_field no_guide 0 1
                row_group [row_left; row_right] row_layers
                (position row_middle, row_middle)
    = Some [[mkNode (mkPoint 10 0) 1 false (-1) true];
            [row_left; row_middle; row_right]].
Proof.
  assert (adjacentNodes (map fst row_group) (position row_middle)
          = [position row_left; position row_right]) as Hadj
    by (vm_compute; reflexivity).
  destruct (C2_absorbed_maxima_are_not_dropped
              (settings EVERYWHERE) open_field open_field no_guide
              1 row_group [] row_layers (position row_middle) row_middle
              (position row_left) (position row_right) [] eq_refl Hadj)
    as [Hpass1 _].
  split; [reflexivity|]. split; [exact Hadj|]. split.
  - etrans; [exact Hpass1|]. vm_compute. reflexivity.
  - vm_compute. reflexivity.
Defined.

Lemma C8_buildplate_only_witness :
  (0 < 1)%nat
  ∧ support_type (settings PLATFORM_ONLY) = PLATFORM_ONLY
  ∧ drop_layer_nodes (settings PLATFORM_ONLY) open_field open_field no_guide
      1 [] [dyad_a; stuck] mixed_layers
    = drop_layer_nodes (settings PLATFORM_ONLY) open_field open_field no_guide
        1 [] [dyad_a] mixed_layers.
Proof.
  split; [lia|]. split; [reflexivity|].
  exact (proj1 (proj2 (proj2
           (C8_buildplate_only_drops_unreachable_nodes
              (settings PLATFORM_ONLY) open_field open_field no_guide
              1 [] [dyad_a; stuck] mixed_layers
              (Nat.lt_0_succ 0) eq_refl)))).
Defined.

Lemma C10_layer_loop_witness :
  (0 < 1)%nat
  ∧ dropNodes_layer (settings EVERYWHERE) open_field open_field no_guide
                    1 dyad_layers
    = Some [[mkNode (mkPoint 5 0) 4 false 1 true;
             mkNode (mkPoint 0 0) 1 false (-1) true;
             mkNode (mkPoint 10 0) 4 true 1 true];
            [dyad_a; dyad_b]]
  ∧ ([[mkNode (mkPoint 5 0) 4 false 1 true;
       mkNode (mkPoint 0 0) 1 false (-1) true;
       mkNode (mkPoint 10 0) 4 true 1 true];
      [dyad_a; dyad_b]] : list NodeSet) !! 1%nat
    = dyad_layers !! 1%nat.
Proof.
  assert (dropNodes_layer (settings EVERYWHERE) open_field open_field
                          no_guide 1 dyad_layers
          = Some [[mkNode (mkPoint 5 0) 4 false 1 true;
                   mkNode (mkPoint 0 0) 1 false (-1) true;
                   mkNode (mkPoint 10 0) 4 true 1 true];
                  [dyad_a; dyad_b]]) as Hrun by (vm_compute; reflexivity).
  split; [lia|]. split; [exact Hrun|].
  exact (proj1 (C10_layer_loop_keeps_processed_layer
                  (settings EVERYWHERE) open_field open_field no_guide
                  1 dyad_layers _ (Nat.lt_0_succ 0) Hrun)).
Defined.

Lemma cells_union_covers (a b : Polygons) (p : Point) (border : bool) :
  inside b p border = true → inside (unionPolygons a b) p border = true.
Proof.
  simpl. unfold covers. rewrite !bool_decide_eq_true, concat_app.
  intros Hb. apply elem_of_app. by right.
Qed.

Lemma C4_avoidance_witness :
  Forall (λ c : list Polygons, S (3 - 1) ≤ length c)%nat two_samples
  ∧ ∃ model_avoidance,
      propagateCollisionAreas (settings EVERYWHERE) 3 two_samples []
      = Some model_avoidance
      ∧ length model_avoidance = length two_samples.
Proof.
  assert (Forall (λ c : list Polygons, S (3 - 1) ≤ length c)%nat two_samples)
    as Hfit by (repeat constructor).
  split; [exact Hfit|].
  destruct (C4_avoidance_recurrence_and_inclusion
              (settings EVERYWHERE) 3 two_samples cells_union_covers Hfit)
    as (model_avoidance & Hrun & Hlen & _).
  exists model_avoidance. by split.
Defined.

Lemma C5_right_angle_witness :
  (right_angle < 90)%Q
  ∧ maximum_move_distance right_angle 100 = tan_times right_angle 100.
Proof.
  split; [reflexivity|].
  exact (C5_sentinel_threshold_is_90_radians right_angle 100 eq_refl).
Defined.
End DropperExamples.

(** ** The renderer and the collision area (C6) *)

Section RendererClearance.
Context `{PolygonOps, FloatOps}.
Variable rs : RenderSettings.
Variable layer_outlines : nat → Polygons.
Variable model_collision : list (list Polygons).



End RendererClearance.

Section RendererExamples.
Import Cells Prim Numbers Examples.

(** In the discrete geometry a simplification stays within one cell of the
    polygon it is given: the deviation it is allowed. *)
Lemma cells_around_near (c q : Point) :
  c ∈ around 1 q → Z.abs (X c - X q) ≤ 1 ∧ Z.abs (Y c - Y q) ≤ 1.
Proof.
  unfold around. change (span 1) with [-1; 0; 1]. simpl.
  rewrite !elem_of_cons, elem_of_nil.
  intros Hc. destruct q as [x y].
  repeat destruct Hc as [->|Hc]; try done; simpl; lia.
Qed.

Lemma cells_simplify_deviation (a : Polygons) (segment deviation : Z) (p : Point) :
  inside (simplify a segment deviation) p false = true →
  ∃ q, inside a q false = true
       ∧ Z.abs (X p - X q) ≤ 1 ∧ Z.abs (Y p - Y q) ≤ 1.
Proof.
  simpl. unfold close_notches, covers.
  destruct (1 <=? deviation).
  - rewrite bool_decide_eq_true, list_elem_of_In, in_concat.
    intros (path & Hpath & Hp).
    apply in_map_iff in Hpath as (path0 & <- & Hpath0).
    apply list_elem_of_In, elem_of_app in Hp as [Hp|Hp].
    + exists p. rewrite bool_decide_eq_true, list_elem_of_In, in_concat.
      split; [|lia]. exists path0. split; [done|]. by apply list_elem_of_In.
    + apply elem_of_remove_dups, list_elem_of_filter in Hp as [_ Hp].
      apply list_elem_of_In, in_flat_map in Hp as (q & Hq & Hnear).
      exists q. rewrite bool_decide_eq_true, list_elem_of_In, in_concat.
      split; [by exists path0|].
      by apply cells_around_near, list_elem_of_In.
  - intros Hp. exists p. split; [done|lia].
Qed.



End RendererExamples.

(** * Further properties *)

(** ** [insertDroppedNode] as a set operation *)

Lemma set_find_position nodes q c :
  set_find nodes q = Some c → position c = q ∧ c ∈ nodes.
Proof.
  induction nodes as [|d rest IH]; simpl; [done|].
  case_decide as Hd.
  - intros [= <-]. split; [done|]. apply list_elem_of_here.
  - intros Hc. destruct (IH Hc) as [Hp Hin]. split; [done|].
    by apply list_elem_of_further.
Qed.

Lemma set_find_None nodes q :
  set_find nodes q = None ↔ q ∉ map position nodes.
Proof.
  induction nodes as [|d rest IH]; simpl.
  - split; [intros _; apply not_elem_of_nil|done].
  - rewrite not_elem_of_cons. case_decide as Hd.
    + split; [done|]. intros [Hne _]. by destruct Hne.
    + rewrite IH. split; [intros Hq; split; [congruence|done]|by intros [_ Hq]].
Qed.

(** What [find] returns after an insertion. *)
Lemma set_find_insertDroppedNode nodes node q :
  set_find (insertDroppedNode nodes node) q
  = if decide (q = position node)
    then Some (match set_find nodes q with
               | Some c => fold_conflict c node
               | None => node
               end)
    else set_find nodes q.
Proof.
  induction nodes as [|d rest IH]; simpl.
  - repeat case_decide; congruence.
  - destruct (decide (position d = position node)) as [Heq|Hne]; simpl.
    + repeat case_decide; try congruence.
    + rewrite IH. repeat case_decide; try congruence.
Qed.

Lemma fold_conflict_twice c node :
  fold_conflict (fold_conflict c node) node = fold_conflict c node.
Proof. unfold fold_conflict. simpl. f_equal; lia. Qed.

Lemma fold_conflict_self node : fold_conflict node node = node.
Proof. destruct node. unfold fold_conflict. simpl. f_equal; lia. Qed.

(** Inserting the same dropped node a second time changes nothing. *)
Theorem insertDroppedNode_idempotent (nodes : NodeSet) (node : Node) :
  insertDroppedNode (insertDroppedNode nodes node) node
  = insertDroppedNode nodes node.
Proof.
  induction nodes as [|d rest IH]; simpl.
  - rewrite decide_True by done. by rewrite fold_conflict_self.
  - destruct (decide (position d = position node)) as [Heq|Hne]; simpl.
    + rewrite decide_True by done. by rewrite fold_conflict_twice.
    + rewrite decide_False by done. by rewrite IH.
Qed.

Lemma insertDroppedNode_NoDup nodes node :
  unique_positions nodes → unique_positions (insertDroppedNode nodes node).
Proof.
  unfold unique_positions. intros Hunique.
  destruct (set_find nodes (position node)) as [c|] eqn:Hfind.
  - by rewrite (insertDroppedNode_positions_conflict _ _ _ Hfind).
  - rewrite (insertDroppedNode_fresh _ _ Hfind), map_app. simpl.
    apply NoDup_app. split; [done|]. split; [|apply NoDup_singleton].
    intros p Hp Hin. apply list_elem_of_singleton in Hin as ->.
    by apply set_find_None in Hfind.
Qed.

(** A layer without two nodes at one position stays so under
    [insertDroppedNode], and gains at most one node. *)
Theorem insertDroppedNode_unique_positions (nodes : NodeSet) (node : Node) :
  unique_positions nodes →
  unique_positions (insertDroppedNode nodes node)
  ∧ (length nodes ≤ length (insertDroppedNode nodes node) ≤ S (length nodes))%nat.
Proof.
  intros Hunique. split; [by apply insertDroppedNode_NoDup|].
  destruct (set_find nodes (position node)) as [c|] eqn:Hfind.
  - rewrite (insertDroppedNode_length_conflict _ _ _ Hfind). lia.
  - rewrite (insertDroppedNode_fresh _ _ Hfind), length_app. simpl. lia.
Qed.

(** Two insertions in either order leave the same positions occupied, with
    the same two counters at each of them; only the order of the nodes and
    the flags kept from the first writer can differ. *)
Theorem insertDroppedNode_counters_commute
    (nodes : NodeSet) (a b : Node) (q : Point) :
  counters <$> set_find (insertDroppedNode (insertDroppedNode nodes a) b) q
  = counters <$> set_find (insertDroppedNode (insertDroppedNode nodes b) a) q.
Proof.
  rewrite !set_find_insertDroppedNode.
  destruct (decide (q = position b)) as [Hb|Hb];
    destruct (decide (q = position a)) as [Ha|Ha]; simpl; try done.
  destruct (set_find nodes q) as [c|]; simpl;
    unfold counters, fold_conflict; simpl; do 2 f_equal; lia.
Qed.

Lemma insertDroppedNode_kept_in nodes node :
  kept_in nodes (insertDroppedNode nodes node).
Proof.
  intros q c Hc. rewrite set_find_insertDroppedNode, Hc.
  case_decide.
  - eexists. split; [done|]. unfold raised, fold_conflict. simpl.
    repeat split; lia.
  - exists c. split; [done|]. unfold raised. repeat split; lia.
Qed.

(** [insertDroppedNode] loses no node: every stored node is still found at
    its position, with its flags and with counters that are not lower, and
    the inserted node is found with counters at least its own. *)
Theorem insertDroppedNode_keeps_nodes (nodes : NodeSet) (node : Node) :
  kept_in nodes (insertDroppedNode nodes node)
  ∧ ∃ c, set_find (insertDroppedNode nodes node) (position node) = Some c
         ∧ distance_to_top node ≤ distance_to_top c
         ∧ support_roof_layers_below node ≤ support_roof_layers_below c.
Proof.
  split; [apply insertDroppedNode_kept_in|].
  rewrite set_find_insertDroppedNode, decide_True by done.
  eexists. split; [done|].
  destruct (set_find nodes (position node)); simpl; lia.
Qed.

(** ** The dropper: what an iteration can and cannot change *)

Lemma foldlM_invariant_in {A B : Type} (P : B → Prop) (f : B → A → option B)
    (l : list A) (b b' : B) :
  (∀ s x s', x ∈ l → P s → f s x = Some s' → P s') →
  P b → foldlM f b l = Some b' → P b'.
Proof.
  revert b. induction l as [|x rest IH]; simpl; intros b Hstep Hb Hrun.
  - by simplify_eq.
  - destruct (f b x) as [s|] eqn:Hf; simpl in Hrun; [|done].
    eapply (IH s); [|by eapply Hstep; [apply list_elem_of_here|..]|done].
    intros s0 y s1 Hy. apply Hstep. by apply list_elem_of_further.
Qed.

Lemma kept_in_refl nodes : kept_in nodes nodes.
Proof.
  intros q c Hc. exists c. split; [done|]. unfold raised. repeat split; lia.
Qed.

Lemma kept_in_trans nodes1 nodes2 nodes3 :
  kept_in nodes1 nodes2 → kept_in nodes2 nodes3 → kept_in nodes1 nodes3.
Proof.
  intros H12 H23 q c Hc.
  destruct (H12 q c Hc) as (c2 & Hc2 & R12).
  destruct (H23 q c2 Hc2) as (c3 & Hc3 & R23).
  exists c3. split; [done|]. unfold raised in *.
  destruct R12 as (? & ? & ? & ? & ?), R23 as (? & ? & ? & ? & ?).
  repeat split; (congruence || lia).
Qed.

Lemma elem_of_insertDroppedNode nodes node n' :
  n' ∈ insertDroppedNode nodes node →
  n' ∈ nodes ∨ n' = node
  ∨ ∃ c, c ∈ nodes ∧ position c = position node ∧ n' = fold_conflict c node.
Proof.
  induction nodes as [|d rest IH]; simpl.
  - intros Hin. apply list_elem_of_singleton in Hin. auto.
  - case_decide as Hd; intros Hin; apply elem_of_cons in Hin as [->|Hin].
    + right. right. exists d. split; [apply list_elem_of_here|done].
    + left. by apply list_elem_of_further.
    + left. apply list_elem_of_here.
    + destruct (IH Hin) as [Hold|[Hnew|(c & Hc & Hp & Hfold)]].
      * left. by apply list_elem_of_further.
      * by right; left.
      * right. right. exists c. split; [by apply list_elem_of_further|done].
Qed.

Section DropperInvariants.
Context `{PolygonOps, SpanningTree, FloatOps}.
Variable cfg : Settings.
Variables model_collision model_avoidance model_internal_guide
  : list (list Polygons).

Local Abbreviation dropNodes_layer' :=
  (dropNodes_layer cfg model_collision model_avoidance model_internal_guide).
Local Abbreviation dropNodes_from' :=
  (dropNodes_from cfg model_collision model_avoidance model_internal_guide).
Local Abbreviation dropNodes' :=
  (dropNodes cfg model_collision model_avoidance model_internal_guide).

(** What one insertion of lines 400-402 and 481-483 does. *)
Lemma emit_step layer_nr sample node v cn cn' :
  emit model_avoidance layer_nr sample node v cn = Some cn' →
  ∃ target next,
    cn !! (layer_nr - 1)%nat = Some target
    ∧ cn' = <[(layer_nr - 1)%nat := insertDroppedNode target next]> cn
    ∧ distance_to_top next = size_t_wrap (distance_to_top node + 1)
    ∧ support_roof_layers_below next = support_roof_layers_below node - 1
    ∧ skin_direction next = skin_direction node.
Proof.
  unfold emit. intros Hrun.
  destruct (at2 model_avoidance sample (layer_nr - 1)); simpl in Hrun; [|done].
  destruct (cn !! (layer_nr - 1)%nat) as [target|]; simpl in Hrun; [|done].
  injection Hrun as <-. by eexists _, _.
Qed.

Lemma map_assign_entries group p node entry :
  entry ∈ map_assign group p node → entry ∈ group ∨ entry = (p, node).
Proof.
  induction group as [|[q c] rest IH]; simpl.
  - intros Hin. apply list_elem_of_singleton in Hin. auto.
  - case_decide as Hq; intros Hin; apply elem_of_cons in Hin as [->|Hin].
    + right. by subst.
    + left. by apply list_elem_of_further.
    + left. apply list_elem_of_here.
    + destruct (IH Hin); [left; by apply list_elem_of_further|by right].
Qed.

Lemma alter_filed_from nodes nodes_per_part i node :
  node ∈ nodes → filed_from nodes nodes_per_part →
  filed_from nodes
    (alter (λ g, map_assign g (position node) node) i nodes_per_part).
Proof.
  intros Hnode Hfiled group entry Hgroup Hentry.
  apply list_elem_of_lookup in Hgroup as [j Hj].
  destruct (decide (i = j)) as [->|Hij].
  - rewrite list_lookup_alter_eq in Hj.
    destruct (nodes_per_part !! j) as [g|] eqn:Hg; simpl in Hj; [|done].
    injection Hj as <-.
    apply map_assign_entries in Hentry as [Hold| ->]; [|done].
    eapply Hfiled; [|done]. by eapply list_elem_of_lookup_2.
  - rewrite list_lookup_alter_ne in Hj by done.
    eapply Hfiled; [|done]. by eapply list_elem_of_lookup_2.
Qed.

Lemma assign_nodes_filed_from parts all nodes start :
  (∀ n, n ∈ nodes → n ∈ all) → filed_from all start →
  filed_from all (fold_left (assign_node cfg parts) nodes start).
Proof.
  revert start. induction nodes as [|n rest IH]; simpl; intros start Hall Hstart;
    [done|].
  apply IH; [intros m Hm; apply Hall; by apply list_elem_of_further|].
  assert (n ∈ all) as Hn by (apply Hall, list_elem_of_here).
  unfold assign_node.
  destruct (_ && _); [done|].
  destruct (_ || _); by apply alter_filed_from.
Qed.

Lemma group_nodes_filed_from parts nodes :
  filed_from nodes (group_nodes cfg parts nodes).
Proof.
  apply assign_nodes_filed_from; [done|].
  intros group entry Hgroup Hentry.
  apply elem_of_replicate in Hgroup as [-> _]. by apply elem_of_nil in Hentry.
Qed.

(** A property of the contact nodes that no insertion made for a node of
    the processed layer breaks survives the iteration. *)
Lemma dropNodes_layer_emits (P : list NodeSet → Prop) layer_nr nodes cn cn' :
  (∀ sample node v cn1 cn2,
     node ∈ nodes → P cn1 →
     emit model_avoidance layer_nr sample node v cn1 = Some cn2 → P cn2) →
  cn !! layer_nr = Some nodes → P cn →
  dropNodes_layer' layer_nr cn = Some cn' → P cn'.
Proof.
  intros Hemit Hnodes HP. unfold dropNodes_layer. intros Hrun.
  destruct (at2 model_avoidance 0 layer_nr) as [avoidance|];
    simpl in Hrun; [|done].
  rewrite Hnodes in Hrun. simpl in Hrun. unfold drop_layer_nodes in Hrun.
  pose proof (group_nodes_filed_from (splitIntoParts avoidance) nodes) as Hfiled.
  apply (foldlM_invariant_in P _ _ _ _) with (3 := Hrun); [|done].
  intros cn1 [group_index group] cn2 Hgroup HP1 Hstep.
  assert (group ∈ group_nodes cfg (splitIntoParts avoidance) nodes) as Hin.
  { apply list_elem_of_lookup in Hgroup as [i Hi].
    apply lookup_zip_with_Some in Hi as (gi & g & [= -> ->] & _ & Hg).
    by eapply list_elem_of_lookup_2. }
  unfold drop_group in Hstep.
  destruct (foldlM _ _ group) as [[td cn3]|] eqn:Hpass1 in Hstep;
    simpl in Hstep; [|done].
  assert (P cn3) as HP3.
  { apply (foldlM_invariant_in (λ st, P st.2) _ _ _ _) with (3 := Hpass1);
      [|done].
    intros [td0 cn0] entry [td2 cn4] Hentry HP0 Hone. simpl in *.
    destruct (Hfiled group entry Hin Hentry) as [_ Hnode].
    unfold pass1_entry in Hone.
    destruct (set_find td0 (position entry.2)); [by simplify_eq|].
    destruct (adjacentNodes (map fst group) (position entry.2))
      as [|n0 [|n1 more]].
    - simpl in Hone. by simplify_eq.
    - destruct (_ && _); [|by simplify_eq].
      destruct (settle _ _ _ _ _ _ _ _ _) as [p|]; simpl in Hone; [|done].
      destruct (emit _ _ _ _ _ _) as [cn5|] eqn:Hemitted; simpl in Hone; [|done].
      injection Hone as <- <-. by eapply Hemit.
    - destruct (1 <? _)%nat; [|by simplify_eq].
      destruct (merge_neighbours _ _ _ _ _) as [[n2 td3]|]; simpl in Hone;
        [|done].
      by simplify_eq. }
  apply (foldlM_invariant_in P _ _ _ _) with (3 := Hstep); [|done].
  intros cn0 entry cn4 Hentry HP0 Hone.
  destruct (Hfiled group entry Hin Hentry) as [_ Hnode].
  unfold pass2_entry in Hone.
  destruct (set_find td (position entry.2)); [by simplify_eq|].
  destruct (too_far_inside _ _ _ _ _) as [[|]|]; simpl in Hone;
    [by simplify_eq| |done].
  destruct (settle _ _ _ _ _ _ _ _ _) as [p|]; simpl in Hone; [|done].
  by eapply Hemit.
Qed.

(** The same for the whole loop, for a property that does not depend on the
    layer being processed. *)
Lemma dropNodes_from_emits (P : list NodeSet → Prop) layer_nr cn cn' :
  (∀ l sample node v cn1 cn2,
     P cn1 → emit model_avoidance l sample node v cn1 = Some cn2 → P cn2) →
  P cn → dropNodes_from' layer_nr cn = Some cn' → P cn'.
Proof.
  intros Hemit. revert cn.
  induction layer_nr as [|below IH]; simpl; intros cn HP Hrun;
    [by simplify_eq|].
  destruct (dropNodes_layer' (S below) cn) as [cn1|] eqn:Hlayer;
    simpl in Hrun; [|done].
  apply (IH cn1); [|done].
  destruct (cn !! S below) as [nodes|] eqn:Hnodes.
  - apply (dropNodes_layer_emits P (S below) nodes cn cn1); try done.
    intros sample node v cn2 cn3 _. apply Hemit.
  - unfold dropNodes_layer in Hlayer.
    destruct (at2 model_avoidance 0 (S below)); simpl in Hlayer; [|done].
    by rewrite Hnodes in Hlayer.
Qed.

(** Unique positions: the uniqueness that the hash set gives every layer
    is kept by the dropper in every layer. *)
Theorem dropNodes_unique_positions
    (contact_nodes contact_nodes' : list NodeSet) :
  Forall unique_positions contact_nodes →
  dropNodes' contact_nodes = Some contact_nodes' →
  Forall unique_positions contact_nodes'.
Proof.
  intros Hunique Hrun. unfold dropNodes in Hrun.
  destruct (length contact_nodes) as [|top]; [done|].
  apply (dropNodes_from_emits (Forall unique_positions) top contact_nodes);
    try done.
  intros l sample node v cn1 cn2 Hcn1 Hemitted.
  apply emit_step in Hemitted as (target & next & Htarget & -> & _).
  apply Forall_insert; [done|].
  apply insertDroppedNode_NoDup.
  by eapply (Forall_lookup_1 unique_positions cn1).
Qed.
(** The dropper loses no contact node: after the whole loop there are as
    many layers, the top layer is as it was, and every node is still found
    on its layer at its position, with its flags and with counters that are
    not lower. *)
Theorem dropNodes_keeps_nodes
    (contact_nodes contact_nodes' : list NodeSet) :
  dropNodes' contact_nodes = Some contact_nodes' →
  length contact_nodes' = length contact_nodes
  ∧ contact_nodes' !! (length contact_nodes - 1)%nat
    = contact_nodes !! (length contact_nodes - 1)%nat
  ∧ ∀ k nodes, contact_nodes !! k = Some nodes →
               ∃ nodes', contact_nodes' !! k = Some nodes'
                         ∧ kept_in nodes nodes'.
Proof.
  intros Hrun. unfold dropNodes in Hrun.
  destruct (length contact_nodes) as [|top] eqn:Hlen; [done|].
  simpl. rewrite Nat.sub_0_r.
  split; [|split].
  - apply (dropNodes_from_emits (λ cn, length cn = S top) top contact_nodes);
      try done.
    intros l sample node v cn1 cn2 Hcn1 Hemitted.
    apply emit_step in Hemitted as (target & next & _ & -> & _).
    by rewrite length_insert.
  - by eapply dropNodes_from_keeps_upper.
  - apply (dropNodes_from_emits
             (λ cn, ∀ k nodes, contact_nodes !! k = Some nodes →
                               ∃ nodes', cn !! k = Some nodes'
                                         ∧ kept_in nodes nodes')
             top contact_nodes); try done.
    + intros l sample node v cn1 cn2 Hcn1 Hemitted k nodes Hk.
      apply emit_step in Hemitted as (target & next & Htarget & -> & _).
      destruct (Hcn1 k nodes Hk) as (nodes1 & Hnodes1 & Hkept).
      destruct (decide (k = (l - 1)%nat)) as [->|Hne].
      * exists (insertDroppedNode target next).
        split; [apply list_lookup_insert_eq; by eapply lookup_lt_Some|].
        assert (nodes1 = target) as -> by congruence.
        eapply kept_in_trans; [done|apply insertDroppedNode_kept_in].
      * exists nodes1. by rewrite list_lookup_insert_ne.
    + intros k nodes Hk. exists nodes. split; [done|apply kept_in_refl].
Qed.

(** A layer without nodes: the iteration leaves the contact nodes as they
    are, and so does the whole loop when no layer has a node, as long as the
    avoidance sample 0 has the layers the loop looks at. *)
Theorem dropNodes_without_nodes (contact_nodes : list NodeSet) :
  Forall (λ nodes, nodes = []) contact_nodes →
  (0 < length contact_nodes)%nat →
  (∀ l, (0 < l < length contact_nodes)%nat →
        is_Some (at2 model_avoidance 0 l)) →
  dropNodes' contact_nodes = Some contact_nodes.
Proof.
  intros Hempty Hlen Hfield. unfold dropNodes.
  destruct (length contact_nodes) as [|top] eqn:Htop; [lia|].
  assert (∀ l, (l ≤ top)%nat → dropNodes_from' l contact_nodes
                              = Some contact_nodes) as Hloop; [|by apply Hloop].
  induction l as [|below IH]; intros Hl; [done|]. simpl.
  assert (dropNodes_layer' (S below) contact_nodes = Some contact_nodes) as ->.
  { unfold dropNodes_layer.
    destruct (Hfield (S below)) as [avoidance ->]; [lia|]. simpl.
    destruct (lookup_lt_is_Some_2 contact_nodes (S below)) as [nodes Hnodes];
      [lia|].
    rewrite Hnodes. simpl.
    assert (nodes = []) as ->.
    { rewrite Forall_forall in Hempty. apply Hempty.
      by eapply list_elem_of_lookup_2. }
    unfold drop_layer_nodes, group_nodes. simpl.
    rewrite length_replicate.
    apply (drop_group_empty_buckets cfg model_collision model_avoidance
             model_internal_guide (S below) contact_nodes 1
             (length (splitIntoParts avoidance))). }
  simpl. apply IH. lia.
Qed.

(** Where the counters on the layer below come from: after an iteration,
    every node of layer l-1 has a distance_to_top that a node at its
    position had there before, or that is one more (as a [size_t]) than that
    of a node of layer l; and a roof count that a node at its position had
    there before, or that is one less than that of a node of layer l. *)
Theorem dropNodes_layer_counters_from_above
    (layer_nr : nat) (nodes below : NodeSet)
    (contact_nodes contact_nodes' : list NodeSet) :
  contact_nodes !! layer_nr = Some nodes →
  contact_nodes !! (layer_nr - 1)%nat = Some below →
  dropNodes_layer' layer_nr contact_nodes = Some contact_nodes' →
  ∃ below',
    contact_nodes' !! (layer_nr - 1)%nat = Some below'
    ∧ ∀ n', n' ∈ below' →
        ((∃ n0, n0 ∈ below ∧ position n0 = position n'
                ∧ distance_to_top n' = distance_to_top n0)
         ∨ ∃ n, n ∈ nodes
                ∧ distance_to_top n' = size_t_wrap (distance_to_top n + 1))
        ∧ ((∃ n0, n0 ∈ below ∧ position n0 = position n'
                  ∧ support_roof_layers_below n'
                    = support_roof_layers_below n0)
           ∨ ∃ n, n ∈ nodes
                  ∧ support_roof_layers_below n'
                    = support_roof_layers_below n - 1).
Proof.
  intros Hnodes Hbelow Hrun.
  set (from_above (n' : Node) :=
         ((∃ n0, n0 ∈ below ∧ position n0 = position n'
                 ∧ distance_to_top n' = distance_to_top n0)
          ∨ ∃ n, n ∈ nodes
                 ∧ distance_to_top n' = size_t_wrap (distance_to_top n + 1))
         ∧ ((∃ n0, n0 ∈ below ∧ position n0 = position n'
                   ∧ support_roof_layers_below n'
                     = support_roof_layers_below n0)
            ∨ ∃ n, n ∈ nodes
                   ∧ support_roof_layers_below n'
                     = support_roof_layers_below n - 1)).
  apply (dropNodes_layer_emits
           (λ cn, ∃ below', cn !! (layer_nr - 1)%nat = Some below'
                            ∧ ∀ n', n' ∈ below' → from_above n')
           layer_nr nodes contact_nodes contact_nodes'); try done.
  - intros sample node v cn1 cn2 Hnode (below1 & Hbelow1 & Hall) Hemitted.
    apply emit_step in Hemitted
      as (target & next & Htarget & -> & Hdtt & Hroof & _).
    assert (below1 = target) as -> by congruence.
    exists (insertDroppedNode target next).
    split; [apply list_lookup_insert_eq; by eapply lookup_lt_Some|].
    intros n' Hn'.
    apply elem_of_insertDroppedNode in Hn'
      as [Hold|[->|(c & Hc & Hp & ->)]].
    + by apply Hall.
    + split; right; exists node; (split; [done|congruence]).
    + destruct (Hall c Hc) as [Hc_dtt Hc_roof]. unfold from_above.
      unfold fold_conflict. simpl. split.
      * destruct (Z.max_spec (distance_to_top c) (distance_to_top next))
          as [[_ ->]|[_ ->]]; [right; exists node; split; [done|congruence]|].
        done.
      * destruct (Z.max_spec (support_roof_layers_below c)
                             (support_roof_layers_below next))
          as [[_ ->]|[_ ->]]; [right; exists node; split; [done|congruence]|].
        done.
  - exists below. split; [done|]. intros n' Hn'.
    split; left; exists n'; done.
Qed.
End DropperInvariants.

(** ** The buckets of a layer *)

Section BucketFacts.
Context `{PolygonOps, SpanningTree, FloatOps}.
Variable cfg : Settings.

Lemma closest_part_loop_spec p rest :
  ∀ part_index closest_part closest_part_distance2,
    let r := closest_part_loop rest part_index closest_part
                               closest_part_distance2 p in
    (∃ i part, rest !! i = Some part ∧ part_inside part p true = true
               ∧ r = part_index + Z.of_nat i
               ∧ ∀ j part', (j < i)%nat → rest !! j = Some part' →
                            part_inside part' p true = false)
    ∨ ((∀ part, part ∈ rest → part_inside part p true = false)
       ∧ ((r = closest_part
           ∧ ∀ part, part ∈ rest →
                     closest_part_distance2 ≤ part_distance2 p part)
          ∨ ∃ i part, rest !! i = Some part
                      ∧ r = part_index + Z.of_nat i
                      ∧ part_distance2 p part < closest_part_distance2
                      ∧ (∀ part', part' ∈ rest →
                                  part_distance2 p part ≤ part_distance2 p part')
                      ∧ ∀ j part', (j < i)%nat → rest !! j = Some part' →
                                   part_distance2 p part < part_distance2 p part')).
Proof.
  induction rest as [|part rest IH]; intros k c d; simpl.
  - right. split; [by intros part Hpart; apply elem_of_nil in Hpart|].
    left. split; [done|]. by intros part Hpart; apply elem_of_nil in Hpart.
  - destruct (part_inside part p true) eqn:Hinside.
    + left. exists 0%nat, part. split_and!; [done|done|lia|]. intros j part' Hj. lia.
    + fold (part_distance2 p part).
      destruct (Z.ltb_spec (part_distance2 p part) d) as [Hlt|Hge].
      * destruct (IH (k + 1) k (part_distance2 p part))
          as [(i & part1 & Hi & Hin & Hr & Hfirst)
             |[Hnone [[Hr Hmin]|(i & part1 & Hi & Hr & Hlt1 & Hmin & Hstrict)]]].
        -- left. exists (S i), part1. split_and!; [done|done|lia|].
           intros [|j] part' Hj Hpart'; simpl in Hpart'; [by simplify_eq|].
           eapply Hfirst; [|done]. lia.
        -- right. split.
           { intros part' Hpart'. apply elem_of_cons in Hpart' as [->|Hpart'];
               [done|by apply Hnone]. }
           right. exists 0%nat, part. split_and!; [done|lia|done| |].
           ++ intros part' Hpart'. apply elem_of_cons in Hpart' as [->|Hpart'];
                [lia|by apply Hmin].
           ++ intros j part' Hj. lia.
        -- right. split.
           { intros part' Hpart'. apply elem_of_cons in Hpart' as [->|Hpart'];
               [done|by apply Hnone]. }
           right. exists (S i), part1. split_and!; [done|lia|lia| |].
           ++ intros part' Hpart'. apply elem_of_cons in Hpart' as [->|Hpart'];
                [lia|by apply Hmin].
           ++ intros [|j] part' Hj Hpart'; simpl in Hpart';
                [simplify_eq; lia|]. eapply Hstrict; [|done]. lia.
      * destruct (IH (k + 1) c d)
          as [(i & part1 & Hi & Hin & Hr & Hfirst)
             |[Hnone [[Hr Hmin]|(i & part1 & Hi & Hr & Hlt1 & Hmin & Hstrict)]]].
        -- left. exists (S i), part1. split_and!; [done|done|lia|].
           intros [|j] part' Hj Hpart'; simpl in Hpart'; [by simplify_eq|].
           eapply Hfirst; [|done]. lia.
        -- right. split.
           { intros part' Hpart'. apply elem_of_cons in Hpart' as [->|Hpart'];
               [done|by apply Hnone]. }
           left. split; [done|].
           intros part' Hpart'. apply elem_of_cons in Hpart' as [->|Hpart'];
             [lia|by apply Hmin].
        -- right. split.
           { intros part' Hpart'. apply elem_of_cons in Hpart' as [->|Hpart'];
               [done|by apply Hnone]. }
           right. exists (S i), part1. split_and!; [done|lia|lia| |].
           ++ intros part' Hpart'. apply elem_of_cons in Hpart' as [->|Hpart'];
                [lia|by apply Hmin].
           ++ intros [|j] part' Hj Hpart'; simpl in Hpart';
                [simplify_eq; lia|]. eapply Hstrict; [|done]. lia.
Qed.
(** Which bucket a node that rests on the model is filed in (lines
    324-344): the bucket of the first part that contains it; failing that,
    the bucket of the first among the nearest parts; and when no part is
    nearer than the largest coordinate, [closest_part] keeps its start value
    [(size_t)-1], the index wraps to 0 and the node joins the build-plate
    bucket. *)
Theorem assign_node_resting_bucket
    (parts : list PolygonsPart) (nodes_per_part : list NodeMap) (node : Node) :
  support_type cfg = EVERYWHERE →
  to_buildplate node = false →
  parts ≠ [] →
  Z.of_nat (length parts) < 2 ^ 64 →
  ∃ bucket,
    assign_node cfg parts nodes_per_part node
    = alter (λ g, map_assign g (position node) node) bucket nodes_per_part
    ∧ (bucket ≤ length parts)%nat
    ∧ ((∃ i part, bucket = S i ∧ parts !! i = Some part
                  ∧ part_inside part (position node) true = true
                  ∧ ∀ j part', (j < i)%nat → parts !! j = Some part' →
                               part_inside part' (position node) true = false)
       ∨ ((∀ part, part ∈ parts →
                   part_inside part (position node) true = false)
          ∧ ((bucket = 0%nat
              ∧ ∀ part, part ∈ parts →
                        coord_max ≤ part_distance2 (position node) part)
             ∨ ∃ i part,
                 bucket = S i ∧ parts !! i = Some part
                 ∧ part_distance2 (position node) part < coord_max
                 ∧ (∀ part', part' ∈ parts →
                      part_distance2 (position node) part
                      ≤ part_distance2 (position node) part')
                 ∧ ∀ j part', (j < i)%nat → parts !! j = Some part' →
                      part_distance2 (position node) part
                      < part_distance2 (position node) part'))).
Proof.
  intros Htype Hbp Hparts Hsize.
  unfold assign_node, support_rests_on_model.
  rewrite Htype, Hbp, bool_decide_eq_true_2 by done.
  rewrite bool_decide_eq_false_2 by done. simpl.
  assert (∀ i : nat, (i < length parts)%nat →
            Z.to_nat (size_t_wrap (0 + Z.of_nat i + 1)) = S i) as Hindex.
  { intros i Hi. unfold size_t_wrap. rewrite Z.mod_small by lia. lia. }
  destruct (closest_part_loop_spec (position node) parts 0 (2 ^ 64 - 1) coord_max)
    as [(i & part & Hi & Hin & Hr & Hfirst)
       |[Hnone [[Hr Hmin]|(i & part & Hi & Hr & Hlt & Hmin & Hstrict)]]].
  - exists (S i). rewrite Hr, Hindex by (by eapply lookup_lt_Some).
    split; [done|]. split; [by apply lookup_lt_Some in Hi|].
    left. by exists i, part.
  - exists 0%nat. rewrite Hr.
    replace (size_t_wrap (2 ^ 64 - 1 + 1)) with 0 by done.
    split; [done|]. split; [lia|]. right. split; [done|]. by left.
  - exists (S i). rewrite Hr, Hindex by (by eapply lookup_lt_Some).
    split; [done|]. split; [by apply lookup_lt_Some in Hi|].
    right. split; [done|]. right. by exists i, part.
Qed.

Lemma assign_node_length parts nodes_per_part node :
  length (assign_node cfg parts nodes_per_part node) = length nodes_per_part.
Proof.
  unfold assign_node. destruct (_ && _); [done|].
  destruct (_ || _); apply length_alter.
Qed.

Lemma assign_nodes_length parts nodes start :
  length (fold_left (assign_node cfg parts) nodes start) = length start.
Proof.
  revert start. induction nodes as [|n rest IH]; simpl; intros start; [done|].
  by rewrite IH, assign_node_length.
Qed.

Lemma assign_node_resting_only parts nodes_per_part node :
  resting_only nodes_per_part →
  resting_only (assign_node cfg parts nodes_per_part node).
Proof.
  intros Hrest. unfold assign_node.
  destruct (_ && _); [done|].
  destruct (to_buildplate node) eqn:Hbp; simpl.
  - intros k group entry Hk Hentry.
    rewrite list_lookup_alter_ne in Hk by done. by eapply Hrest.
  - assert (∀ i, resting_only
                   (alter (λ g, map_assign g (position node) node) i
                          nodes_per_part)) as Halter.
    { intros i k group entry Hk Hentry.
      destruct (decide (i = S k)) as [->|Hne].
      - rewrite list_lookup_alter_eq in Hk.
        destruct (nodes_per_part !! S k) as [g|] eqn:Hg; simpl in Hk; [|done].
        injection Hk as <-.
        apply map_assign_entries in Hentry as [Hold| ->]; [|done].
        by eapply Hrest.
      - rewrite list_lookup_alter_ne in Hk by done. by eapply Hrest. }
    destruct (bool_decide (parts = [])); apply Halter.
Qed.

Lemma map_assign_has group p node : (p, node) ∈ map_assign group p node.
Proof.
  induction group as [|[q c] rest IH]; simpl; [apply list_elem_of_here|].
  case_decide as Hq; [subst; apply list_elem_of_here|].
  by apply list_elem_of_further.
Qed.

Lemma map_assign_keeps group p node entry :
  entry ∈ group → entry.1 ≠ p → entry ∈ map_assign group p node.
Proof.
  induction group as [|[q c] rest IH]; simpl; intros Hin Hne;
    [by apply elem_of_nil in Hin|].
  apply elem_of_cons in Hin as [->|Hin].
  - simpl in Hne. rewrite decide_False by done. apply list_elem_of_here.
  - case_decide; apply list_elem_of_further; [done|by apply IH].
Qed.

Lemma assign_node_keeps parts nodes_per_part node i group entry :
  nodes_per_part !! i = Some group → entry ∈ group →
  entry.1 ≠ position node →
  ∃ group', assign_node cfg parts nodes_per_part node !! i = Some group'
            ∧ entry ∈ group'.
Proof.
  intros Hi Hentry Hne.
  assert (∀ j, ∃ group',
            alter (λ g, map_assign g (position node) node) j nodes_per_part !! i
            = Some group' ∧ entry ∈ group') as Halter.
  { intros j. destruct (decide (j = i)) as [->|Hji].
    - rewrite list_lookup_alter_eq, Hi. simpl. eexists. split; [done|].
      by apply map_assign_keeps.
    - rewrite list_lookup_alter_ne by done. eauto. }
  unfold assign_node. destruct (_ && _); [eauto|].
  destruct (_ || _); apply Halter.
Qed.

Lemma assign_nodes_keep parts nodes : ∀ start i group entry,
  start !! i = Some group → entry ∈ group →
  entry.1 ∉ map position nodes →
  ∃ group', fold_left (assign_node cfg parts) nodes start !! i = Some group'
            ∧ entry ∈ group'.
Proof.
  induction nodes as [|n rest IH]; simpl; intros start i group entry Hi Hentry Hne;
    [eauto|].
  apply not_elem_of_cons in Hne as [Hn Hrest].
  destruct (assign_node_keeps parts start n i group entry Hi Hentry Hn)
    as (group1 & Hi1 & Hentry1).
  by eapply IH.
Qed.

Lemma assign_nodes_file_reachable parts nodes node : ∀ start,
  unique_positions nodes → (0 < length start)%nat →
  node ∈ nodes → to_buildplate node = true →
  ∃ group, fold_left (assign_node cfg parts) nodes start !! 0%nat = Some group
           ∧ (position node, node) ∈ group.
Proof.
  unfold unique_positions.
  induction nodes as [|n rest IH]; simpl; intros start Hunique Hlen Hnode Hbp;
    [by apply elem_of_nil in Hnode|].
  apply NoDup_cons in Hunique as [Hfresh Hunique].
  apply elem_of_cons in Hnode as [->|Hnode].
  - destruct (lookup_lt_is_Some_2 start 0 Hlen) as [g0 Hg0].
    apply (assign_nodes_keep parts rest _ 0%nat
             (map_assign g0 (position n) n)); [|apply map_assign_has|done].
    unfold assign_node. rewrite Hbp, andb_false_r. simpl.
    by rewrite list_lookup_alter_eq, Hg0.
  - apply IH; try done. by rewrite assign_node_length.
Qed.

(** The buckets of a layer (lines 298-345): one per part and one more;
    every entry is a node of the layer filed under its own position; buckets
    other than bucket 0 hold only nodes that cannot reach the build plate;
    and on a layer with unique positions every node that can reach the build
    plate is in bucket 0. *)
Theorem group_nodes_buckets
    (parts : list PolygonsPart) (nodes : NodeSet) :
  unique_positions nodes →
  length (group_nodes cfg parts nodes) = S (length parts)
  ∧ filed_from nodes (group_nodes cfg parts nodes)
  ∧ (∀ k group entry,
       group_nodes cfg parts nodes !! S k = Some group → entry ∈ group →
       to_buildplate entry.2 = false)
  ∧ ∀ node, node ∈ nodes → to_buildplate node = true →
            ∃ group, group_nodes cfg parts nodes !! 0%nat = Some group
                     ∧ (position node, node) ∈ group.
Proof.
  intros Hunique. split_and!.
  - unfold group_nodes. by rewrite assign_nodes_length, length_replicate.
  - apply group_nodes_filed_from.
  - unfold group_nodes.
    assert (∀ nodes start, resting_only start →
              resting_only (fold_left (assign_node cfg parts) nodes start))
      as Hfold.
    { clear. induction nodes as [|n rest IH]; simpl; intros start Hstart;
        [done|]. apply IH. by apply assign_node_resting_only. }
    apply Hfold. intros k group entry Hk Hentry.
    apply lookup_replicate in Hk as [-> _]. by apply elem_of_nil in Hentry.
  - intros node Hnode Hbp. unfold group_nodes.
    apply assign_nodes_file_reachable; try done.
    rewrite length_replicate. lia.
Qed.
(** *** The first pass: absorbing neighbours *)

Lemma set_find_snoc nodes node q :
  set_find (nodes ++ [node]) q
  = match set_find nodes q with
    | Some c => Some c
    | None => set_find [node] q
    end.
Proof.
  induction nodes as [|d rest IH]; [done|].
  cbn [app set_find]. case_decide; [done|apply IH].
Qed.

Lemma set_find_set_insert nodes node q :
  is_Some (set_find (set_insert nodes node) q)
  ↔ is_Some (set_find nodes q) ∨ q = position node.
Proof.
  unfold set_insert.
  destruct (set_find nodes (position node)) as [c|] eqn:Hfind.
  - split; [auto|]. intros [Hq| ->]; [done|by rewrite Hfind].
  - rewrite set_find_snoc. destruct (set_find nodes q) as [c|] eqn:Hq.
    + split; [auto|done].
    + simpl. case_decide as Hp.
      * split; [auto|done].
      * split; [by intros []|]. intros [[]| ->]; done.
Qed.

(** The loop of lines 407-416 on a node's copy: the copy keeps its position
    and flags and gets counters that are at least its own and at least those
    of every neighbour within reach; every such neighbour is marked deleted;
    nothing already marked is unmarked, and nothing but neighbours within
    reach is newly marked. *)
Theorem merge_neighbours_marks_neighbours_within_reach
    (group : NodeMap) (neighbours : list Point) (node node' : Node)
    (to_delete to_delete' : NodeSet) :
  merge_neighbours cfg group neighbours node to_delete
  = Some (node', to_delete') →
  raised node node'
  ∧ (∀ q, is_Some (set_find to_delete q) → is_Some (set_find to_delete' q))
  ∧ (∀ neighbour, neighbour ∈ neighbours → within_reach cfg node neighbour →
       ∃ absorbed, map_get group neighbour = Some absorbed
                   ∧ is_Some (set_find to_delete' (position absorbed))
                   ∧ distance_to_top absorbed ≤ distance_to_top node'
                   ∧ support_roof_layers_below absorbed
                     ≤ support_roof_layers_below node')
  ∧ ∀ q, is_Some (set_find to_delete' q) →
         is_Some (set_find to_delete q)
         ∨ ∃ neighbour absorbed,
             neighbour ∈ neighbours ∧ within_reach cfg node neighbour
             ∧ map_get group neighbour = Some absorbed
             ∧ position absorbed = q.
Proof.
  revert node to_delete.
  induction neighbours as [|nb rest IH]; intros node to_delete Hrun.
  - simpl in Hrun. injection Hrun as <- <-. split_and!.
    + unfold raised. split_and!; (done || lia).
    + done.
    + intros neighbour Hin. by apply elem_of_nil in Hin.
    + auto.
  - cbn [merge_neighbours] in Hrun.
    destruct (Z.ltb_spec (vSize2 (point_sub nb (position node)))
                         (max_move cfg * max_move cfg)) as [Hclose|Hfar].
    + destruct (map_get group nb) as [absorbed|] eqn:Habsorbed;
        simpl in Hrun; [|done].
      apply IH in Hrun as (Hraised & Hkept & Hmarked & Honly).
      unfold raised in Hraised. simpl in Hraised.
      destruct Hraised as (Hp & Hskin & Hbp & Hdtt & Hroof).
      split_and!.
      * unfold raised. split_and!; (done || lia).
      * intros q Hq. apply Hkept, set_find_set_insert. by left.
      * intros neighbour Hin Hreach.
        apply elem_of_cons in Hin as [->|Hin].
        -- exists absorbed. split_and!; [done| |lia|lia].
           apply Hkept, set_find_set_insert. by right.
        -- apply Hmarked; [done|]. unfold within_reach in *. by simpl.
      * intros q Hq. destruct (Honly q Hq) as [Hold|(nb' & ab & Hin & Hr & Hg & Hpq)].
        -- apply set_find_set_insert in Hold as [Hold| ->]; [by left|].
           right. exists nb, absorbed. split_and!; try done.
           apply list_elem_of_here.
        -- right. exists nb', ab. split_and!; try done.
           by apply list_elem_of_further.
    + apply IH in Hrun as (Hraised & Hkept & Hmarked & Honly).
      split_and!; try done.
      * intros neighbour Hin Hreach.
        apply elem_of_cons in Hin as [->|Hin]; [|by apply Hmarked].
        unfold within_reach in Hreach. lia.
      * intros q Hq. destruct (Honly q Hq) as [Hold|(nb' & ab & Hin & Hr & Hg & Hpq)];
          [by left|].
        right. exists nb', ab. split_and!; try done.
        by apply list_elem_of_further.
Qed.
End BucketFacts.

(** ** Contact seeding: what it adds and what it leaves alone *)

Lemma aabb_include_spans box p :
  X (aabb_min (aabb_include box p)) ≤ X (aabb_max (aabb_include box p))
  ∧ Y (aabb_min (aabb_include box p)) ≤ Y (aabb_max (aabb_include box p)).
Proof. unfold aabb_include. simpl. lia. Qed.

Lemma grid_steps_defined (lo hi step : Z) :
  0 < step → is_Some (grid_steps lo hi step).
Proof.
  intros Hstep. unfold grid_steps.
  destruct (hi <? lo); [done|].
  by rewrite (proj2 (Z.leb_gt _ _)) by lia.
Qed.

(** The counter of [for (x = lo; x <= hi; x += step)] with a positive step
    takes exactly the values of the interval from [lo] to [hi] that lie a
    whole number of steps above [lo], in increasing order; the interval is
    left without a value only when it is empty. *)
Theorem grid_steps_values (lo hi step : Z) :
  0 < step →
  ∃ values,
    grid_steps lo hi step = Some values
    ∧ (∀ x, x ∈ values ↔ lo ≤ x ≤ hi ∧ (x - lo) mod step = 0)
    ∧ (∀ i x y, values !! i = Some x → values !! S i = Some y → y = x + step)
    ∧ (values = [] ↔ hi < lo).
Proof.
  intros Hstep. unfold grid_steps.
  destruct (Z.ltb_spec hi lo) as [Hempty|Hfull].
  - exists []. split_and!; [done| |done|done].
    intros x. split; [by intros Hx; apply elem_of_nil in Hx|lia].
  - rewrite (proj2 (Z.leb_gt _ _)) by lia.
    set (n := Z.to_nat ((hi - lo) / step)).
    assert (0 ≤ (hi - lo) / step) as Hq by (apply Z.div_pos; lia).
    eexists. split; [done|]. split_and!.
    + intros x. rewrite list_elem_of_In, in_map_iff. split.
      * intros (i & <- & Hi). apply in_seq in Hi.
        assert (Z.of_nat i ≤ (hi - lo) / step) as Hle by lia.
        assert (Z.of_nat i * step ≤ hi - lo).
        { etrans; [apply Z.mul_le_mono_nonneg_r; [lia|exact Hle]|].
          rewrite Z.mul_comm. apply Z.mul_div_le. lia. }
        split; [lia|].
        replace (lo + Z.of_nat i * step - lo) with (Z.of_nat i * step) by lia.
        apply Z.mod_mul. lia.
      * intros [[Hlo Hhi] Hmod].
        exists (Z.to_nat ((x - lo) / step)).
        assert (0 ≤ (x - lo) / step) by (apply Z.div_pos; lia).
        assert ((x - lo) / step ≤ (hi - lo) / step)
          by (apply Z.div_le_mono; lia).
        split.
        -- rewrite Z2Nat.id by done.
           pose proof (Z.div_mod (x - lo) step ltac:(lia)) as Hdm.
           rewrite Hmod in Hdm. lia.
        -- apply in_seq. lia.
    + intros i x y Hx Hy.
      rewrite list_lookup_fmap in Hx, Hy.
      destruct (seq 0 (S n) !! i) as [a|] eqn:Ha; simpl in Hx; [|done].
      destruct (seq 0 (S n) !! S i) as [b|] eqn:Hb; simpl in Hy; [|done].
      apply lookup_seq in Ha as [-> _]. apply lookup_seq in Hb as [-> _].
      simplify_eq. lia.
    + split; [done|lia].
Qed.

Lemma set_insert_NoDup nodes node :
  unique_positions nodes → unique_positions (set_insert nodes node).
Proof.
  unfold unique_positions, set_insert. intros Hunique.
  destruct (set_find nodes (position node)) as [c|] eqn:Hfind; [done|].
  rewrite map_app. simpl.
  apply NoDup_app. split; [done|]. split; [|apply NoDup_singleton].
  intros p Hp Hin. apply list_elem_of_singleton in Hin as ->.
  by apply set_find_None in Hfind.
Qed.

Lemma set_insert_appends nodes node :
  ∃ added, set_insert nodes node = nodes ++ added
           ∧ (added = [] ∨ added = [node])
           ∧ is_Some (set_find (set_insert nodes node) (position node)).
Proof.
  unfold set_insert.
  destruct (set_find nodes (position node)) as [c|] eqn:Hfind.
  - exists []. rewrite app_nil_r, Hfind. auto.
  - exists [node]. split; [done|]. split; [auto|].
    rewrite set_find_snoc, Hfind. simpl. by rewrite decide_True.
Qed.

Section SeederInvariants.
Context `{PolygonOps, FloatOps}.
Variable mesh : Mesh.
Variable collision_areas : list Polygons.

Lemma fallback_node_tip layer_nr overhang_part :
  tip mesh (fallback_node mesh layer_nr overhang_part).
Proof. by unfold tip, fallback_node. Qed.

Lemma grid_points_defined :
  0 < point_spread mesh → is_Some (grid_points mesh).
Proof.
  intros Hspread. unfold grid_points.
  destruct (grid_steps_defined
              (X (aabb_min (unrotated_bounding_box mesh)))
              (X (aabb_max (unrotated_bounding_box mesh)))
              (point_spread mesh) Hspread) as [xs ->].
  destruct (grid_steps_defined
              (Y (aabb_min (unrotated_bounding_box mesh)))
              (Y (aabb_max (unrotated_bounding_box mesh)))
              (point_spread mesh) Hspread) as [ys ->].
  simpl. by destruct xs.
Qed.

(** A property of the contact nodes that no insertion of a tip on layer
    [layer_nr] breaks survives the seeding of an overhang part. *)
Lemma seed_overhang_part_inserts (P : list NodeSet → Prop)
    grid layer_nr overhang_part cn cn' :
  (∀ cn1 node cn2, tip mesh node → P cn1 →
                   insert_contact cn1 layer_nr node = Some cn2 → P cn2) →
  P cn →
  seed_overhang_part mesh collision_areas grid layer_nr cn overhang_part
  = Some cn' →
  P cn'.
Proof.
  intros Hinsert HP. unfold seed_overhang_part. intros Hrun.
  destruct (foldlM _ _ grid) as [[cn1 added]|] eqn:Hloop in Hrun;
    simpl in Hrun; [|done].
  assert (P cn1) as HP1.
  { apply (foldlM_invariant (λ st, P st.1) _ _ _ _) with (3 := Hloop); [|done].
    intros [cn2 a2] candidate [cn3 a3] HP2 Hone. simpl in *.
    unfold seed_candidate in Hone.
    destruct (aabb_contains _ _); [|by simplify_eq].
    destruct (polygon_inside _ _ _); [|by simplify_eq].
    destruct (collision_areas !! layer_nr) as [collision|]; simpl in Hone;
      [|done].
    destruct (negb _); [|by simplify_eq].
    destruct (insert_contact cn2 _ _) as [cn4|] eqn:Hinserted; simpl in Hone;
      [|done].
    injection Hone as <- <-.
    eapply Hinsert; [|done|exact Hinserted]. by unfold tip. }
  destruct added; [by simplify_eq|].
  eapply Hinsert; [|done|exact Hrun]. apply fallback_node_tip.
Qed.

(** The same for the whole function: tips are inserted on layers from 1
    up to, not including, [overhang_areas.size() - z_distance_top_layers]. *)
Lemma generateContactPoints_inserts (P : list NodeSet → Prop) cn cn' :
  (∀ layer_nr cn1 node cn2,
     (1 ≤ layer_nr)%nat →
     (layer_nr + z_distance_top_layers mesh < length (overhang_areas mesh))%nat →
     tip mesh node → P cn1 →
     insert_contact cn1 layer_nr node = Some cn2 → P cn2) →
  P cn → generateContactPoints mesh collision_areas cn = Some cn' → P cn'.
Proof.
  intros Hinsert HP. unfold generateContactPoints. intros Hrun.
  destruct grid_points as [grid|]; simpl in Hrun; [|done].
  apply (foldlM_invariant_in P _ _ _ _) with (3 := Hrun); [|done].
  intros cn1 layer_nr cn2 Hlayer HP1 Hone.
  apply elem_of_seq in Hlayer.
  unfold seed_layer in Hone.
  destruct (overhang_areas mesh !! _) as [overhang|]; simpl in Hone; [|done].
  apply (foldlM_invariant P _ _ _ _) with (3 := Hone); [|done].
  intros cn3 part cn4 HP3 Hpart.
  apply (seed_overhang_part_inserts P grid layer_nr part cn3 cn4); try done.
  intros cn5 node cn6. apply Hinsert; lia.
Qed.

(** Seeding only adds tips: the number of layers stays, layer 0 and the
    layers from [overhang_areas.size() - z_distance_top_layers] on are
    untouched, and on every layer the nodes that were there stay as they
    are, in place, followed by the new nodes, each of which has
    distance_to_top 0, can reach the build plate and carries the mesh's
    roof layer count. *)
Theorem generateContactPoints_adds_tips
    (contact_nodes contact_nodes' : list NodeSet) :
  generateContactPoints mesh collision_areas contact_nodes
  = Some contact_nodes' →
  length contact_nodes' = length contact_nodes
  ∧ ∀ k nodes,
      contact_nodes !! k = Some nodes →
      ∃ added,
        contact_nodes' !! k = Some (nodes ++ added)
        ∧ Forall (tip mesh) added
        ∧ ((k = 0%nat
            ∨ length (overhang_areas mesh) ≤ k + z_distance_top_layers mesh)%nat
           → added = []).
Proof.
  intros Hrun. split.
  - apply (generateContactPoints_inserts
             (λ cn, length cn = length contact_nodes) contact_nodes);
      try done.
    intros l cn1 node cn2 _ _ _ Hlen. unfold insert_contact.
    destruct (cn1 !! l); simpl; [|done]. intros [= <-].
    by rewrite length_insert.
  - apply (generateContactPoints_inserts
             (λ cn, ∀ k nodes,
                contact_nodes !! k = Some nodes →
                ∃ added,
                  cn !! k = Some (nodes ++ added)
                  ∧ Forall (tip mesh) added
                  ∧ ((k = 0%nat
                      ∨ length (overhang_areas mesh)
                        ≤ k + z_distance_top_layers mesh)%nat
                     → added = []))
             contact_nodes); try done.
    + intros l cn1 node cn2 Hl1 Hl2 Htip Hcn1. unfold insert_contact.
      destruct (cn1 !! l) as [target|] eqn:Htarget; simpl; [|done].
      intros [= <-] k nodes Hk.
      destruct (Hcn1 k nodes Hk) as (added & Hadded & Htips & Huntouched).
      destruct (decide (k = l)) as [->|Hne].
      * rewrite list_lookup_insert_eq by (by eapply lookup_lt_Some).
        assert (target = nodes ++ added) as -> by congruence.
        destruct (set_insert_appends (nodes ++ added) node)
          as (more & -> & Hmore & _).
        exists (added ++ more). rewrite app_assoc. split; [done|]. split.
        -- apply Forall_app. split; [done|].
           destruct Hmore as [->| ->];
             [apply Forall_nil_2|by apply Forall_singleton].
        -- intros [->|Hhigh]; lia.
      * rewrite list_lookup_insert_ne by done. eauto.
    + intros k nodes Hk. exists []. rewrite app_nil_r. by split_and!.
Qed.

(** Seeding keeps positions unique on every layer. *)
Theorem generateContactPoints_unique_positions
    (contact_nodes contact_nodes' : list NodeSet) :
  Forall unique_positions contact_nodes →
  generateContactPoints mesh collision_areas contact_nodes
  = Some contact_nodes' →
  Forall unique_positions contact_nodes'.
Proof.
  intros Hunique Hrun.
  apply (generateContactPoints_inserts (Forall unique_positions)
           contact_nodes); try done.
  intros l cn1 node cn2 _ _ _ Hcn1. unfold insert_contact.
  destruct (cn1 !! l) as [target|] eqn:Htarget; simpl; [|done].
  intros [= <-]. apply Forall_insert; [done|].
  apply set_insert_NoDup. by eapply (Forall_lookup_1 unique_positions cn1).
Qed.

(** A branch distance that is not positive: the loop at line 511 is
    entered, since the grid's bounding box holds at least one point, and its
    counter never passes the upper bound; no contact point is ever
    returned. *)
Theorem generateContactPoints_needs_positive_spread
    (contact_nodes : list NodeSet) :
  point_spread mesh ≤ 0 →
  generateContactPoints mesh collision_areas contact_nodes = None.
Proof.
  intros Hspread. unfold generateContactPoints, grid_points.
  assert (grid_steps (X (aabb_min (unrotated_bounding_box mesh)))
                     (X (aabb_max (unrotated_bounding_box mesh)))
                     (point_spread mesh) = None) as ->; [|done].
  assert (X (aabb_min (unrotated_bounding_box mesh))
          ≤ X (aabb_max (unrotated_bounding_box mesh))) as Hx
    by (unfold unrotated_bounding_box; apply aabb_include_spans).
  unfold grid_steps.
  destruct (Z.ltb_spec (X (aabb_max (unrotated_bounding_box mesh)))
                       (X (aabb_min (unrotated_bounding_box mesh)))); [lia|].
  destruct (Z.leb_spec (point_spread mesh) 0); [done|lia].
Qed.

(** A mesh with at most [z_distance_top_layers + 1] overhang layers gets no
    contact point: with a positive branch distance the function returns the
    contact nodes it was given. *)
Theorem generateContactPoints_short_mesh (contact_nodes : list NodeSet) :
  0 < point_spread mesh →
  (length (overhang_areas mesh) ≤ S (z_distance_top_layers mesh))%nat →
  generateContactPoints mesh collision_areas contact_nodes
  = Some contact_nodes.
Proof.
  intros Hspread Hshort. unfold generateContactPoints.
  destruct (grid_points_defined Hspread) as [grid ->]. simpl.
  by replace (length (overhang_areas mesh) - z_distance_top_layers mesh - 1)%nat
    with 0%nat by lia.
Qed.

(** No overhang part is left without a contact node: once a part has been
    seeded, its layer holds a node at the settled position of an accepted
    grid candidate or, when no candidate was accepted, at the fallback
    position. *)
Theorem seed_overhang_part_leaves_node
    (grid : list Point) (layer_nr : nat) (overhang_part : Polygon)
    (collision : Polygons) (contact_nodes contact_nodes' : list NodeSet) :
  collision_areas !! layer_nr = Some collision →
  seed_overhang_part mesh collision_areas grid layer_nr contact_nodes
                     overhang_part = Some contact_nodes' →
  ∃ nodes' p,
    contact_nodes' !! layer_nr = Some nodes'
    ∧ is_Some (set_find nodes' p)
    ∧ ((∃ candidate,
          candidate ∈ grid
          ∧ candidate_accepted mesh collision overhang_part candidate = true
          ∧ p = moveInside overhang_part candidate 0
                  (half_overhang_distance mesh * half_overhang_distance mesh))
       ∨ (Forall (λ c, candidate_accepted mesh collision overhang_part c = false)
                 grid
          ∧ p = position (fallback_node mesh layer_nr overhang_part))).
Proof.
  intros Hcollision. unfold seed_overhang_part. intros Hrun.
  destruct (foldlM _ _ grid) as [[cn1 added]|] eqn:Hloop in Hrun;
    simpl in Hrun; [|done].
  set (bounds := aabb_expand (aabb_of_polygon overhang_part)
                             (half_overhang_distance mesh)) in *.
  set (settled c := moveInside overhang_part c 0
                      (half_overhang_distance mesh * half_overhang_distance mesh)).
  assert (∀ tried st st',
            foldlM (seed_candidate mesh collision_areas layer_nr overhang_part
                      bounds) st tried = Some st' →
            (st.2 = true →
             ∃ nodes p, st.1 !! layer_nr = Some nodes
                        ∧ is_Some (set_find nodes p)
                        ∧ ∃ c, c ∈ grid
                               ∧ candidate_accepted mesh collision
                                   overhang_part c = true
                               ∧ p = settled c) →
            (∀ c, c ∈ tried → c ∈ grid) →
            if st'.2
            then ∃ nodes p, st'.1 !! layer_nr = Some nodes
                            ∧ is_Some (set_find nodes p)
                            ∧ ∃ c, c ∈ grid
                                   ∧ candidate_accepted mesh collision
                                       overhang_part c = true
                                   ∧ p = settled c
            else st' = st
                 ∧ Forall (λ c, candidate_accepted mesh collision
                                  overhang_part c = false) tried) as Hcandidates.
  { induction tried as [|c rest IH]; intros [cn2 a2] st' Hfold Hsofar Hsub.
    - simpl in Hfold. injection Hfold as <-. simpl in *.
      destruct a2; [by apply Hsofar|by split].
    - cbn [foldlM] in Hfold.
      destruct (seed_candidate _ _ _ _ _ _ c) as [[cn3 a3]|] eqn:Hone;
        simpl in Hfold; [|done].
      assert (c ∈ grid) as Hc by (apply Hsub, list_elem_of_here).
      specialize (IH (cn3, a3) st' Hfold).
      unfold seed_candidate in Hone.
      assert ((cn3, a3) = (cn2, a2)
              ∧ candidate_accepted mesh collision overhang_part c = false
              ∨ candidate_accepted mesh collision overhang_part c = true
                ∧ a3 = true
                ∧ ∃ nodes, cn3 !! layer_nr = Some nodes
                           ∧ is_Some (set_find nodes (settled c))) as Hcase.
      { unfold candidate_accepted. fold bounds. fold (settled c).
        fold (settled c) in Hone.
        destruct (aabb_contains bounds c); [|left; by simplify_eq].
        destruct (polygon_inside overhang_part (settled c) true);
          [|left; by simplify_eq].
        rewrite Hcollision in Hone. simpl in Hone.
        destruct (inside collision (settled c) true); simpl in *;
          [left; by simplify_eq|].
        unfold insert_contact in Hone.
        destruct (cn2 !! layer_nr) as [target|] eqn:Htarget; simpl in Hone;
          [|done].
        injection Hone as <- <-. right. split_and!; [done..|].
        eexists. split;
          [apply list_lookup_insert_eq; by eapply lookup_lt_Some|].
        by destruct (set_insert_appends target
                       (mkNode (settled c) 0
                          (negb (Nat.even (layer_nr + z_distance_top_layers mesh)))
                          (support_roof_layers mesh) true))
          as (? & _ & _ & Hfound). }
      destruct Hcase as [[[= -> ->] Hrejected]|(Haccepted & -> & nodes & Hn & Hf)].
      + specialize (IH Hsofar).
        destruct (st'.2);
          [apply IH; intros; by apply Hsub, list_elem_of_further|].
        destruct IH as [-> Hrest];
          [intros; by apply Hsub, list_elem_of_further|].
        split; [done|by constructor].
      + assert (st'.2 = true) as Hadded.
        { clear -Hfold. revert Hfold. generalize cn3.
          induction rest as [|c' rest IH]; intros cn Hfold.
          - simpl in Hfold. by injection Hfold as <-.
          - cbn [foldlM] in Hfold.
            destruct (seed_candidate _ _ _ _ _ (cn, true) c')
              as [[cn' a']|] eqn:Hone; simpl in Hfold; [|done].
            assert (a' = true) as ->; [|by eapply IH].
            unfold seed_candidate in Hone.
            repeat (case_match; simplify_option_eq; try done). }
        rewrite Hadded.
        specialize (IH ltac:(intros _; exists nodes, (settled c); eauto 10)).
        rewrite Hadded in IH. apply IH.
        intros; by apply Hsub, list_elem_of_further. }
  specialize (Hcandidates grid (contact_nodes, false) (cn1, added) Hloop
                ltac:(done) ltac:(done)).
  simpl in Hcandidates. destruct added.
  - injection Hrun as <-.
    destruct Hcandidates as (nodes & p & Hnodes & Hfound & Hc).
    exists nodes, p. by split_and!; [..|left].
  - destruct Hcandidates as [[= -> ] Hrejected].
    unfold insert_contact in Hrun.
    destruct (contact_nodes !! layer_nr) as [target|] eqn:Htarget;
      simpl in Hrun; [|done].
    injection Hrun as <-.
    eexists _, _. split;
      [apply list_lookup_insert_eq; by eapply lookup_lt_Some|].
    split; [|right; by split].
    by destruct (set_insert_appends target
                   (fallback_node mesh layer_nr overhang_part))
      as (? & _ & _ & Hfound).
Qed.
End SeederInvariants.

(** ** Drawing: what the layer loop writes *)

Lemma max_filled_layer_filled current layer_nr out :
  filled_layer out →
  max_filled_layer current layer_nr out = Z.max current (Z.of_nat layer_nr).
Proof.
  unfold filled_layer, max_filled_layer. intros Hfilled.
  repeat case_bool_decide; simpl; try done. tauto.
Qed.

Lemma max_filled_layer_blank current layer_nr out :
  ¬ filled_layer out → max_filled_layer current layer_nr out = current.
Proof.
  unfold filled_layer, max_filled_layer. intros Hblank.
  repeat case_bool_decide; simpl; try done; tauto.
Qed.

Section RendererFacts.
Context `{PolygonOps, FloatOps}.
Variable rs : RenderSettings.
Variable layer_outlines : nat → Polygons.
Variable model_collision : list (list Polygons).
Variable contact_nodes : list NodeSet.

Local Abbreviation draw_layer' := (draw_layer rs layer_outlines model_collision).
Local Abbreviation draw_step' :=
  (draw_step rs layer_outlines model_collision contact_nodes).
Local Abbreviation drawCircles' :=
  (drawCircles rs layer_outlines model_collision contact_nodes).

(** The iterations of the layer loop do not meet: each reads the nodes and
    the stored layer of its own index and writes that layer only. *)
Lemma draw_steps_layers count :
  ∀ start layers filled layers' filled',
    foldlM draw_step' (layers, filled) (seq start count)
    = Some (layers', filled') →
    length layers' = length layers
    ∧ (∀ k, (k < start ∨ start + count ≤ k)%nat → layers' !! k = layers !! k)
    ∧ (∀ k, (start ≤ k < start + count)%nat →
         ∃ nodes out out',
           contact_nodes !! k = Some nodes
           ∧ layers !! k = Some out
           ∧ draw_layer' k nodes out = Some out'
           ∧ layers' !! k = Some out')
    ∧ filled ≤ filled'
    ∧ (∀ k out', (start ≤ k < start + count)%nat →
         layers' !! k = Some out' → filled_layer out' → Z.of_nat k ≤ filled')
    ∧ (filled' = filled
       ∨ ∃ k out', (start ≤ k < start + count)%nat
                   ∧ layers' !! k = Some out'
                   ∧ filled_layer out'
                   ∧ filled' = Z.of_nat k).
Proof.
  induction count as [|count IH]; intros start layers filled layers' filled'.
  - simpl. intros [= <- <-]. split_and!; try done; [intros; lia..|by left].
  - cbn [seq foldlM]. intros Hrun.
    destruct (draw_step' (layers, filled) start) as [[layers1 filled1]|]
      eqn:Hstep; simpl in Hrun; [|done].
    unfold draw_step in Hstep.
    destruct (contact_nodes !! start) as [nodes|] eqn:Hnodes; simpl in Hstep;
      [|done].
    destruct (layers !! start) as [out|] eqn:Hout; simpl in Hstep; [|done].
    destruct (draw_layer' start nodes out) as [out'|] eqn:Hdrawn;
      simpl in Hstep; [|done].
    injection Hstep as <- <-.
    apply IH in Hrun as (Hlen & Hframe & Hdraw & Hmono & Hmax & Hwhich).
    rewrite length_insert in Hlen.
    assert (layers' !! start = Some out') as Hstart.
    { rewrite Hframe by lia. apply list_lookup_insert_eq.
      by eapply lookup_lt_Some. }
    assert (filled ≤ max_filled_layer filled start out'
            ∧ (filled_layer out' →
               Z.of_nat start ≤ max_filled_layer filled start out')
            ∧ (max_filled_layer filled start out' = filled
               ∨ filled_layer out'
                 ∧ max_filled_layer filled start out' = Z.of_nat start))
      as (Hfirst & Hfirst_max & Hfirst_which).
    { destruct (decide (filled_layer out')) as [Hfilled|Hblank].
      - rewrite max_filled_layer_filled by done. split_and!; [lia|lia|].
        destruct (Z.max_spec filled (Z.of_nat start)) as [[_ ->]|[_ ->]];
          [by right|by left].
      - rewrite max_filled_layer_blank by done. split_and!; [lia|done|by left]. }
    split_and!.
    + done.
    + intros k Hk. rewrite Hframe by lia. apply list_lookup_insert_ne. lia.
    + intros k Hk. destruct (decide (k = start)) as [->|Hne].
      * by exists nodes, out, out'.
      * destruct (Hdraw k) as (nodes' & out1 & out1' & ? & Hsrc & ? & ?);
          [lia|].
        rewrite list_lookup_insert_ne in Hsrc by lia.
        by exists nodes', out1, out1'.
    + lia.
    + intros k out1 Hk Hk' Hfilled. destruct (decide (k = start)) as [->|Hne].
      * assert (out1 = out') as -> by congruence.
        specialize (Hfirst_max Hfilled). lia.
      * apply (Hmax k out1); [lia|done..].
    + destruct Hwhich as [->|(k & out1 & Hk & Hk' & Hfilled & ->)].
      * destruct Hfirst_which as [->|[Hfilled ->]]; [by left|].
        right. exists start, out'. split; [lia|by split_and!].
      * right. exists k, out1. split; [lia|by split_and!].
Qed.

Lemma draw_layer_writes layer_nr nodes out out' :
  draw_layer' layer_nr nodes out = Some out' →
  (∃ support_layer,
     support_infill_parts out'
     = support_infill_parts out ++ emit_parts rs support_layer)
  ∧ ∃ added, support_bottom out' = support_bottom out ++ added
             ∧ (support_bottom_enable rs = false → added = []).
Proof.
  unfold draw_layer. intros Hdrawn.
  destruct (clear_collision _ _ _ _) as [[support_layer roof_layer]|];
    simpl in Hdrawn; [|done].
  destruct (subtract_floors _ _ _ _ _) as [[support_layer' floor_layer]|]
    eqn:Hfloors; simpl in Hdrawn; [|done].
  injection Hdrawn as <-. simpl. split; [by eexists|].
  unfold subtract_floors in Hfloors.
  destruct (support_bottom_enable rs).
  - destruct (floor_strides rs) as [strides|]; simpl in Hfloors; [|done].
    injection Hfloors as _ <-.
    match goal with
    | |- context [fold_left ?f strides _] =>
        assert (∀ fl, ∃ added, fold_left f strides fl = fl ++ added) as Hfold
    end.
    { clear. induction strides as [|stride rest IH]; intros fl; simpl.
      - exists []. by rewrite app_nil_r.
      - destruct (IH (fl ++ floor_sample rs layer_outlines layer_nr stride
                              (simplify support_layer
                                 (simplify_segment layer_nr)
                                 (line_width rs ≫ 2)))) as [added ->].
        eexists. by rewrite <- app_assoc. }
    destruct (Hfold (support_bottom out)) as [added ->].
    eexists. rewrite <- app_assoc. by split.
  - injection Hfloors as _ <-. exists []. by rewrite app_nil_r.
Qed.

Lemma emit_parts_drawn support_layer :
  Forall (drawn_part rs) (emit_parts rs support_layer).
Proof.
  unfold emit_parts. apply Forall_forall. intros part Hpart.
  apply list_elem_of_In, in_map_iff in Hpart as (path & <- & _).
  by unfold drawn_part.
Qed.

(** The layer loop is layerwise: it needs a stored layer for every layer of
    contact nodes, keeps the number of stored layers, leaves the layers
    above the contact nodes alone, and the layer it stores at an index is
    drawn from the nodes and the stored layer of that index alone, whatever
    order the iterations run in. *)
Theorem drawCircles_layerwise layers filled layers' filled' :
  drawCircles rs layer_outlines model_collision contact_nodes (layers, filled)
  = Some (layers', filled') →
  (length contact_nodes ≤ length layers)%nat
  ∧ length layers' = length layers
  ∧ (∀ k, (length contact_nodes ≤ k)%nat → layers' !! k = layers !! k)
  ∧ ∀ k nodes,
      contact_nodes !! k = Some nodes →
      ∃ out out',
        layers !! k = Some out
        ∧ draw_layer rs layer_outlines model_collision k nodes out = Some out'
        ∧ layers' !! k = Some out'.
Proof.
  unfold drawCircles. intros Hrun.
  apply draw_steps_layers in Hrun as (Hlen & Hframe & Hdraw & _).
  split_and!; [|done|intros; apply Hframe; lia|].
  - destruct (decide (length contact_nodes = 0)%nat) as [->|Hne]; [lia|].
    destruct (Hdraw (length contact_nodes - 1)%nat)
      as (? & out & _ & _ & Hout & _); [lia|].
    apply lookup_lt_Some in Hout. lia.
  - intros k nodes Hnodes.
    destruct (Hdraw k) as (nodes' & out & out' & Hnodes' & ? & ? & ?).
    { apply lookup_lt_Some in Hnodes. lia. }
    assert (nodes' = nodes) as -> by congruence. by exists out, out'.
Qed.

(** Drawing only adds parts: on every stored layer the parts that were
    there stay, in place, followed by the new ones, each of which has an
    outline of one path, the support line width and the tree's wall
    count. *)
Theorem drawCircles_appends_parts layers filled layers' filled' :
  drawCircles rs layer_outlines model_collision contact_nodes (layers, filled)
  = Some (layers', filled') →
  ∀ k out,
    layers !! k = Some out →
    ∃ out' drawn,
      layers' !! k = Some out'
      ∧ support_infill_parts out' = support_infill_parts out ++ drawn
      ∧ Forall (drawn_part rs) drawn.
Proof.
  unfold drawCircles. intros Hrun k out Hout.
  apply draw_steps_layers in Hrun as (_ & Hframe & Hdraw & _).
  destruct (decide (k < length contact_nodes)%nat) as [Hk|Hk].
  - destruct (Hdraw k) as (nodes & out1 & out' & _ & Hout1 & Hdrawn & Hout');
      [lia|].
    assert (out1 = out) as -> by congruence.
    apply draw_layer_writes in Hdrawn as [[support_layer Hparts] _].
    exists out', (emit_parts rs support_layer).
    split_and!; [done..|apply emit_parts_drawn].
  - exists out, []. rewrite Hframe by lia. rewrite app_nil_r.
    split_and!; [done..|apply Forall_nil_2].
Qed.

(** The support floor only grows: the paths stored for a layer's floor stay
    in place, never united with the samples added behind them, and with
    support floors switched off the floor is left as it was. *)
Theorem drawCircles_appends_floor layers filled layers' filled' :
  drawCircles rs layer_outlines model_collision contact_nodes (layers, filled)
  = Some (layers', filled') →
  ∀ k out,
    layers !! k = Some out →
    ∃ out' added,
      layers' !! k = Some out'
      ∧ support_bottom out' = support_bottom out ++ added
      ∧ (support_bottom_enable rs = false → added = []).
Proof.
  unfold drawCircles. intros Hrun k out Hout.
  apply draw_steps_layers in Hrun as (_ & Hframe & Hdraw & _).
  destruct (decide (k < length contact_nodes)%nat) as [Hk|Hk].
  - destruct (Hdraw k) as (nodes & out1 & out' & _ & Hout1 & Hdrawn & Hout');
      [lia|].
    assert (out1 = out) as -> by congruence.
    apply draw_layer_writes in Hdrawn as [_ (added & Hfloor & Hoff)].
    by exists out', added.
  - exists out, []. rewrite Hframe by lia. by rewrite app_nil_r.
Qed.

(** [layer_nr_max_filled_layer] never goes down, ends at or above every
    drawn layer that holds a part or a roof, and is either the value it had
    or the number of such a layer. *)
Theorem drawCircles_max_filled_layer layers filled layers' filled' :
  drawCircles rs layer_outlines model_collision contact_nodes (layers, filled)
  = Some (layers', filled') →
  filled ≤ filled'
  ∧ (∀ k out', (k < length contact_nodes)%nat →
       layers' !! k = Some out' → filled_layer out' → Z.of_nat k ≤ filled')
  ∧ (filled' = filled
     ∨ ∃ k out', (k < length contact_nodes)%nat
                 ∧ layers' !! k = Some out'
                 ∧ filled_layer out'
                 ∧ filled' = Z.of_nat k).
Proof.
  unfold drawCircles. intros Hrun.
  apply draw_steps_layers in Hrun as (_ & _ & _ & Hmono & Hmax & Hwhich).
  split_and!; [done| |].
  - intros k out' Hk. apply Hmax. lia.
  - destruct Hwhich as [->|(k & out' & Hk & ? & ? & ->)]; [by left|].
    right. exists k, out'. split; [lia|by split_and!].
Qed.

(** Support floors with a bottom height of at least one layer and a skip
    height of zero layers: the counter of the loop at line 246 never moves,
    and no layer is ever finished. *)
Theorem drawCircles_zero_skip_height (storage : list SupportLayer * Z) :
  support_bottom_enable rs = true →
  support_bottom_height_layers rs ≠ 0%nat →
  support_interface_skip_layers rs = 0%nat →
  contact_nodes ≠ [] →
  drawCircles rs layer_outlines model_collision contact_nodes storage = None.
Proof.
  intros Henable Hheight Hskip Hnodes. unfold drawCircles.
  destruct contact_nodes as [|nodes rest] eqn:Hcn; [done|].
  cbn [length seq foldlM]. rewrite <- Hcn.
  assert (draw_step' storage 0 = None) as ->; [|done].
  destruct storage as [layers filled]. unfold draw_step.
  destruct (contact_nodes !! 0%nat) as [nodes0|]; simpl; [|done].
  destruct (layers !! 0%nat) as [out|]; simpl; [|done].
  assert (draw_layer' 0 nodes0 out = None) as ->; [|done].
  unfold draw_layer.
  destruct (clear_collision _ _ _ _) as [[support_layer roof_layer]|]; simpl;
    [|done].
  unfold subtract_floors, floor_strides. rewrite Henable, Hskip.
  by destruct (support_bottom_height_layers rs).
Qed.
End RendererFacts.

(** ** The collision model and the pipeline around it *)

Section CollisionFacts.
Context `{PolygonOps, FloatOps, RoundOffset}.
Variable cfg : Settings.
Variable xy_distance : Z.
Variable layer_count : nat.
Variable layer_outlines : nat → Polygons.
Variable machine_volume_border : Polygons.

Local Abbreviation fresh_collision :=
  (collisionAreas cfg xy_distance layer_count layer_outlines
                  machine_volume_border []).
Local Abbreviation collision_layer' :=
  (collision_layer cfg xy_distance layer_outlines machine_volume_border).

Lemma collisionAreas_sample radius_sample :
  (radius_sample < sample_count cfg layer_count)%nat →
  fresh_collision !! radius_sample
  = Some (map (collision_layer' radius_sample) (seq 0 layer_count)).
Proof.
  intros Hsample. unfold collisionAreas.
  rewrite list_lookup_imap, resize_nil.
  rewrite (proj2 (lookup_replicate _ _ _ _)) by done.
  done.
Qed.

Lemma collisionAreas_length :
  length fresh_collision = sample_count cfg layer_count.
Proof. unfold collisionAreas. by rewrite length_imap, length_resize. Qed.

Lemma collisionAreas_rows sample :
  sample ∈ fresh_collision → length sample = layer_count.
Proof.
  intros Hin. apply list_elem_of_lookup in Hin as [s Hs].
  assert (s < sample_count cfg layer_count)%nat as Hlt.
  { rewrite <- collisionAreas_length. by eapply lookup_lt_Some. }
  rewrite collisionAreas_sample in Hs by done. injection Hs as <-.
  by rewrite length_map, length_seq.
Qed.

(** Called on an empty vector, as [generateSupportAreas] does, the function
    returns at least one radius sample, every sample has one area per
    support layer, and the area of sample [s] on layer [l] is the layer
    outline, united with the border of the machine volume and grown, with
    round joins, by the X/Y distance plus [s] times the sample
    resolution. *)
Theorem collisionAreas_fresh :
  (1 ≤ length fresh_collision)%nat
  ∧ length fresh_collision = sample_count cfg layer_count
  ∧ Forall (λ sample, length sample = layer_count) fresh_collision
  ∧ ∀ radius_sample layer_nr,
      (radius_sample < sample_count cfg layer_count)%nat →
      (layer_nr < layer_count)%nat →
      at2 fresh_collision radius_sample layer_nr
      = Some (offset_round
                (unionPolygons (layer_outlines layer_nr) machine_volume_border)
                (xy_distance
                 + Z.of_nat radius_sample
                   * support_tree_collision_resolution cfg)).
Proof.
  split_and!.
  - rewrite collisionAreas_length. unfold sample_count. lia.
  - apply collisionAreas_length.
  - apply Forall_forall. apply collisionAreas_rows.
  - intros s l Hs Hl. unfold at2. rewrite collisionAreas_sample by done. simpl.
    rewrite list_lookup_fmap, lookup_seq_lt by done. done.
Qed.
End CollisionFacts.

Section PipelineFacts.
Context `{PolygonOps, SpanningTree, FloatOps, RoundOffset}.
Variable cfg : Settings.
Variable rs : RenderSettings.
Variable xy_distance : Z.
Variable layer_outlines : nat → Polygons.
Variable machine_volume_border : Polygons.

Local Abbreviation generateSupportAreas' :=
  (generateSupportAreas cfg rs xy_distance layer_outlines
                        machine_volume_border).

Lemma use_tree_support_false storage :
  support_tree_enable storage = false →
  Forall (λ mesh, mesh_support_tree_enable mesh = false) (meshes storage) →
  use_tree_support storage = false.
Proof.
  intros Hglobal Hmeshes. unfold use_tree_support. rewrite Hglobal. simpl.
  induction Hmeshes as [|mesh rest Hmesh _ IH]; [done|].
  simpl. by rewrite Hmesh.
Qed.

(** Tree support asked for neither by the global setting nor by any mesh:
    the storage is handed back as it was. *)
Theorem generateSupportAreas_without_tree_support (storage : Storage) :
  support_tree_enable storage = false →
  Forall (λ mesh, mesh_support_tree_enable mesh = false) (meshes storage) →
  generateSupportAreas' storage = Some storage.
Proof.
  intros Hglobal Hmeshes. unfold generateSupportAreas.
  by rewrite use_tree_support_false.
Qed.

Lemma propagate_empty_sample layer_count
    (model_collision model_avoidance : list (list Polygons)) :
  [] ∈ model_collision →
  propagateCollisionAreas cfg layer_count model_collision model_avoidance
  = None.
Proof.
  intros Hin. unfold propagateCollisionAreas.
  apply mapM_None, Exists_exists.
  apply list_elem_of_lookup in Hin as [s Hs].
  destruct (lookup_lt_is_Some_2
              (resize (length model_collision) [] model_avoidance) s)
    as [avoidance Havoidance].
  { rewrite length_resize. by eapply lookup_lt_Some. }
  exists ([], avoidance). split; [|done].
  apply list_elem_of_lookup. exists s.
  apply lookup_zip_with_Some. by exists [], avoidance.
Qed.

(** Tree support asked for on a storage without support layers: line 591
    reads layer 0 of a collision sample that has no layer. *)
Theorem generateSupportAreas_without_layers (storage : Storage) :
  use_tree_support storage = true →
  supportLayers storage = [] →
  generateSupportAreas' storage = None.
Proof.
  intros Huse Hlayers. unfold generateSupportAreas.
  rewrite Huse, Hlayers. cbn [negb length].
  rewrite propagate_empty_sample; [done|].
  apply list_elem_of_lookup. exists 0%nat.
  rewrite collisionAreas_sample; [done|]. unfold sample_count. lia.
Qed.

(** With at least one support layer the three area models are defined and
    of one shape, a radius sample for every collision sample and an area for
    every support layer, and the internal guide is, cell by cell, the
    avoidance area with the collision area taken out. *)
Theorem area_models_defined (layer_count : nat) :
  (1 ≤ layer_count)%nat →
  let model_collision :=
    collisionAreas cfg xy_distance layer_count layer_outlines
                   machine_volume_border [] in
  ∃ model_avoidance model_internal_guide,
    propagateCollisionAreas cfg layer_count model_collision []
    = Some model_avoidance
    ∧ internal_guide model_collision model_avoidance
      = Some model_internal_guide
    ∧ length model_avoidance = length model_collision
    ∧ length model_internal_guide = length model_collision
    ∧ Forall (λ sample, length sample = layer_count) model_avoidance
    ∧ Forall (λ sample, length sample = layer_count) model_internal_guide
    ∧ ∀ radius_sample layer_nr avoidance collision,
        at2 model_avoidance radius_sample layer_nr = Some avoidance →
        at2 model_collision radius_sample layer_nr = Some collision →
        at2 model_internal_guide radius_sample layer_nr
        = Some (difference avoidance collision).
Proof.
  intros Hlayers model_collision.
  assert (∀ sample, sample ∈ model_collision → length sample = layer_count)
    as Hrows by apply collisionAreas_rows.
  (* the avoidance model *)
  destruct (propagateCollisionAreas cfg layer_count model_collision [])
    as [model_avoidance|] eqn:Hpropagate.
  2:{ unfold propagateCollisionAreas in Hpropagate.
      apply mapM_None_1, Exists_exists in Hpropagate
        as ([c a] & Hin & Hnone).
      apply list_elem_of_lookup in Hin as [s Hs].
      apply lookup_zip_with_Some in Hs as (c' & a' & [= <- <-] & Hc & Ha).
      rewrite resize_nil in Ha. apply lookup_replicate in Ha as [-> _].
      destruct (propagate_sample_run cfg layer_count c) as (r & Hr & _);
        [|congruence].
      rewrite (Hrows c) by (by eapply list_elem_of_lookup_2). lia. }
  assert (Forall2 (λ sample avoidance,
                     propagate_sample cfg layer_count sample = Some avoidance)
                  (zip model_collision
                       (resize (length model_collision) [] []))
                  model_avoidance) as Hsamples
    by (by apply mapM_Some_1).
  assert (length model_avoidance = length model_collision) as Hlen.
  { rewrite <- (Forall2_length _ _ _ Hsamples).
    rewrite length_zip_with, length_resize. lia. }
  assert (∀ s avoidance, model_avoidance !! s = Some avoidance →
                         length avoidance = layer_count) as Hshape.
  { intros s avoidance Hs.
    destruct (Forall2_lookup_r _ _ _ _ _ Hsamples Hs) as ([c a] & Hz & Hrun).
    apply lookup_zip_with_Some in Hz as (c' & a' & [= <- <-] & Hc & Ha).
    rewrite resize_nil in Ha. apply lookup_replicate in Ha as [-> _].
    destruct (propagate_sample_run cfg layer_count c) as (r & Hr & Hr' & _).
    { rewrite (Hrows c) by (by eapply list_elem_of_lookup_2). lia. }
    assert (r = avoidance) as -> by congruence. lia. }
  (* the internal guide *)
  assert (∀ s avoidance,
            model_avoidance !! s = Some avoidance →
            ∃ guide collision_sample,
              model_collision !! s = Some collision_sample
              ∧ internal_guide_sample model_collision (s, avoidance)
                = Some guide
              ∧ length guide = layer_count
              ∧ ∀ l a c, avoidance !! l = Some a →
                         collision_sample !! l = Some c →
                         guide !! l = Some (difference a c)) as Hguide.
  { intros s avoidance Hs.
    destruct (lookup_lt_is_Some_2 model_collision s) as [c Hc].
    { rewrite <- Hlen. by eapply lookup_lt_Some. }
    assert (length c = layer_count) as Hc_len
      by (by eapply Hrows, list_elem_of_lookup_2).
    assert (length avoidance = layer_count) as Ha_len by (by eapply Hshape).
    unfold internal_guide_sample.
    destruct (mapM _ (imap pair avoidance)) as [guide|] eqn:Hrun.
    2:{ apply mapM_None_1, Exists_exists in Hrun as ([l a] & Hin & Hnone).
        apply list_elem_of_lookup in Hin as [l' Hl].
        rewrite list_lookup_imap in Hl.
        destruct (avoidance !! l') as [a'|] eqn:Ha; simpl in Hl; [|done].
        injection Hl as <- <-. simpl in Hnone. unfold at2 in Hnone.
        rewrite Hc in Hnone. simpl in Hnone.
        destruct (lookup_lt_is_Some_2 c l') as [c' Hc'].
        { rewrite Hc_len, <- Ha_len. by eapply lookup_lt_Some. }
        by rewrite Hc' in Hnone. }
    exists guide, c. split; [done|]. split; [done|].
    apply mapM_Some_1 in Hrun. split.
    - rewrite <- (Forall2_length _ _ _ Hrun). by rewrite length_imap.
    - intros l a c' Ha Hc'.
      assert (imap pair avoidance !! l = Some (l, a)) as Hl
        by (by rewrite list_lookup_imap, Ha).
      destruct (Forall2_lookup_l _ _ _ _ _ Hrun Hl) as (g & Hg & Hcell).
      simpl in Hcell. unfold at2 in Hcell. rewrite Hc in Hcell.
      simpl in Hcell. rewrite Hc' in Hcell. simpl in Hcell.
      congruence. }
  destruct (internal_guide model_collision model_avoidance)
    as [model_internal_guide|] eqn:Hinternal.
  2:{ unfold internal_guide in Hinternal.
      apply mapM_None_1, Exists_exists in Hinternal as ([s a] & Hin & Hnone).
      apply list_elem_of_lookup in Hin as [s' Hs].
      rewrite list_lookup_imap in Hs.
      destruct (model_avoidance !! s') as [a'|] eqn:Ha; simpl in Hs; [|done].
      injection Hs as <- <-.
      destruct (Hguide _ _ Ha) as (g & _ & _ & Hg & _). congruence. }
  exists model_avoidance, model_internal_guide.
  pose proof Hinternal as Hguide_run.
  unfold internal_guide in Hinternal. apply mapM_Some_1 in Hinternal.
  assert (length model_internal_guide = length model_collision) as Hlen'.
  { rewrite <- (Forall2_length _ _ _ Hinternal). by rewrite length_imap. }
  split_and!; try done.
  - apply Forall_forall. intros a Ha.
    apply list_elem_of_lookup in Ha as [s Hs]. by eapply Hshape.
  - apply Forall_forall. intros g Hg.
    apply list_elem_of_lookup in Hg as [s Hs].
    destruct (Forall2_lookup_r _ _ _ _ _ Hinternal Hs) as ([s' a] & Hz & Hrun).
    rewrite list_lookup_imap in Hz.
    destruct (model_avoidance !! s) as [a'|] eqn:Ha; simpl in Hz; [|done].
    injection Hz as <- <-.
    destruct (Hguide _ _ Ha) as (g' & _ & _ & Hg' & Hg_len & _).
    congruence.
  - intros s l a c Ha Hc. unfold at2 in *.
    destruct (model_avoidance !! s) as [avoidance|] eqn:Hs; simpl in Ha;
      [|done].
    destruct (model_collision !! s) as [collision_sample|] eqn:Hcs;
      simpl in Hc; [|done].
    destruct (Hguide _ _ Hs) as (g & c' & Hc' & Hg & _ & Hcells).
    assert (c' = collision_sample) as -> by congruence.
    assert (imap pair model_avoidance !! s = Some (s, avoidance)) as Hz
      by (by rewrite list_lookup_imap, Hs).
    destruct (Forall2_lookup_l _ _ _ _ _ Hinternal Hz) as (g' & Hg' & Hrun).
    assert (g' = g) as -> by congruence.
    rewrite Hg'. simpl. by apply Hcells.
Qed.

(** A finished run changes neither the settings nor the meshes, keeps the
    number of support layers, does not lower [layer_nr_max_filled_layer],
    sets [generated] if tree support was asked for and leaves it alone
    otherwise, and keeps the parts stored on every layer, in place, in
    front of the parts it adds. *)
Theorem generateSupportAreas_frame (storage storage' : Storage) :
  generateSupportAreas' storage = Some storage' →
  support_tree_enable storage' = support_tree_enable storage
  ∧ meshes storage' = meshes storage
  ∧ length (supportLayers storage') = length (supportLayers storage)
  ∧ layer_nr_max_filled_layer storage ≤ layer_nr_max_filled_layer storage'
  ∧ generated storage' = use_tree_support storage || generated storage
  ∧ ∀ k out,
      supportLayers storage !! k = Some out →
      ∃ out' drawn,
        supportLayers storage' !! k = Some out'
        ∧ support_infill_parts out' = support_infill_parts out ++ drawn
        ∧ Forall (drawn_part rs) drawn.
Proof.
  unfold generateSupportAreas. intros Hrun.
  destruct (use_tree_support storage) eqn:Huse; simpl in Hrun.
  - destruct (propagateCollisionAreas _ _ _ _) as [model_avoidance|];
      simpl in Hrun; [|done].
    destruct (internal_guide _ _) as [model_internal_guide|];
      simpl in Hrun; [|done].
    destruct (foldlM _ _ (meshes storage)) as [seeded|]; simpl in Hrun;
      [|done].
    destruct (dropNodes _ _ _ _ _) as [dropped|]; simpl in Hrun; [|done].
    destruct (drawCircles _ _ _ _ _) as [[layers filled]|] eqn:Hdrawn;
      simpl in Hrun; [|done].
    injection Hrun as <-. simpl.
    unfold drawCircles in Hdrawn.
    apply draw_steps_layers in Hdrawn
      as (Hlen & Hframe & Hdraw & Hmono & _).
    split_and!; try done.
    intros k out Hout.
    destruct (decide (k < length dropped)%nat) as [Hk|Hk].
    + destruct (Hdraw k) as (nodes & out1 & out' & _ & Hout1 & Hone & Hout');
        [lia|].
      assert (out1 = out) as -> by congruence.
      apply draw_layer_writes in Hone as [[support_layer Hparts] _].
      exists out', (emit_parts rs support_layer).
      split_and!; [done..|apply emit_parts_drawn].
    + exists out, []. rewrite Hframe by lia. rewrite app_nil_r.
      split_and!; [done..|apply Forall_nil_2].
  - injection Hrun as <-. split_and!; try done; try lia.
    intros k out Hout. exists out, []. rewrite app_nil_r.
    split_and!; [done..|apply Forall_nil_2].
Qed.
End PipelineFacts.

(** ** The further properties on the example inputs *)

Lemma unique_positions_decide (nodes : NodeSet) :
  bool_decide (NoDup (map position nodes)) = true → unique_positions nodes.
Proof. apply bool_decide_eq_true_1. Qed.

Lemma unique_layers_decide (contact_nodes : list NodeSet) :
  forallb (λ nodes, bool_decide (NoDup (map position nodes))) contact_nodes
  = true →
  Forall unique_positions contact_nodes.
Proof.
  induction contact_nodes as [|nodes rest IH]; simpl; [by constructor|].
  intros [Hnodes Hrest]%andb_prop. constructor; [|by apply IH].
  by apply unique_positions_decide.
Qed.

Section FurtherExamples.
Import Cells Prim Numbers Rounds Examples Runs.

Lemma insertDroppedNode_unique_positions_witness :
  unique_positions [dyad_a; dyad_b]
  ∧ unique_positions (insertDroppedNode [dyad_a; dyad_b] row_middle).
Proof.
  assert (unique_positions [dyad_a; dyad_b]) as Hunique
    by (apply unique_positions_decide; vm_compute; reflexivity).
  split; [exact Hunique|].
  exact (proj1 (insertDroppedNode_unique_positions
                  [dyad_a; dyad_b] row_middle Hunique)).
Defined.

Lemma dropNodes_unique_positions_witness :
  Forall unique_positions dyad_layers
  ∧ ∃ dropped,
      dropNodes (settings EVERYWHERE) open_field open_field no_guide
                dyad_layers = Some dropped
      ∧ Forall unique_positions dropped.
Proof.
  assert (Forall unique_positions dyad_layers) as Hunique
    by (apply unique_layers_decide; vm_compute; reflexivity).
  destruct (dropNodes (settings EVERYWHERE) open_field open_field no_guide
                      dyad_layers) as [dropped|] eqn:Hrun;
    [|vm_compute in Hrun; discriminate].
  split; [exact Hunique|]. exists dropped. split; [reflexivity|].
  exact (dropNodes_unique_positions
           (settings EVERYWHERE) open_field open_field no_guide
           dyad_layers dropped Hunique Hrun).
Defined.

Lemma dropNodes_keeps_nodes_witness :
  ∃ dropped,
    dropNodes (settings EVERYWHERE) open_field open_field no_guide
              dyad_layers = Some dropped
    ∧ length dropped = length dyad_layers
    ∧ dropped !! (length dyad_layers - 1)%nat
      = dyad_layers !! (length dyad_layers - 1)%nat.
Proof.
  destruct (dropNodes (settings EVERYWHERE) open_field open_field no_guide
                      dyad_layers) as [dropped|] eqn:Hrun;
    [|vm_compute in Hrun; discriminate].
  exists dropped. split; [reflexivity|].
  destruct (dropNodes_keeps_nodes
              (settings EVERYWHERE) open_field open_field no_guide
              dyad_layers dropped Hrun) as (Hlen & Htop & _).
  split; [exact Hlen|exact Htop].
Defined.

Lemma dropNodes_without_nodes_witness :
  Forall (λ nodes : NodeSet, nodes = []) [[]; []]
  ∧ (0 < length ([[]; []] : list NodeSet))%nat
  ∧ is_Some (at2 open_field 0 1)
  ∧ dropNodes (settings EVERYWHERE) open_field open_field no_guide [[]; []]
    = Some [[]; []].
Proof.
  assert (Forall (λ nodes : NodeSet, nodes = []) [[]; []]) as Hempty
    by (repeat constructor).
  assert (0 < length ([[]; []] : list NodeSet))%nat as Hlayers
    by (simpl; lia).
  assert (is_Some (at2 open_field 0 1)) as Havoidance
    by (exists far_away; reflexivity).
  split; [exact Hempty|]. split; [exact Hlayers|]. split; [exact Havoidance|].
  apply (dropNodes_without_nodes
           (settings EVERYWHERE) open_field open_field no_guide
           [[]; []] Hempty Hlayers).
  intros l Hl. simpl in Hl. assert (l = 1%nat) as -> by lia. exact Havoidance.
Defined.

Lemma dropNodes_layer_counters_from_above_witness :
  dyad_layers !! 1%nat = Some [dyad_a; dyad_b]
  ∧ dyad_layers !! (1 - 1)%nat = Some []
  ∧ ∃ dropped below',
      dropNodes_layer (settings EVERYWHERE) open_field open_field no_guide
                      1 dyad_layers = Some dropped
      ∧ dropped !! (1 - 1)%nat = Some below'.
Proof.
  split; [reflexivity|]. split; [reflexivity|].
  destruct (dropNodes_layer (settings EVERYWHERE) open_field open_field
                            no_guide 1 dyad_layers) as [dropped|] eqn:Hrun;
    [|vm_compute in Hrun; discriminate].
  destruct (dropNodes_layer_counters_from_above
              (settings EVERYWHERE) open_field open_field no_guide
              1 [dyad_a; dyad_b] [] dyad_layers dropped
              eq_refl eq_refl Hrun) as (below' & Hbelow & _).
  exists dropped, below'. split; [reflexivity|exact Hbelow].
Defined.

Lemma assign_node_resting_bucket_witness :
  support_type (settings EVERYWHERE) = EVERYWHERE
  ∧ to_buildplate stuck = false
  ∧ islands ≠ []
  ∧ Z.of_nat (length islands) < 2 ^ 64
  ∧ ∃ bucket,
      assign_node (settings EVERYWHERE) islands (replicate 3 []) stuck
      = alter (λ g, map_assign g (position stuck) stuck) bucket
              (replicate 3 [])
      ∧ (bucket ≤ length islands)%nat.
Proof.
  assert (islands ≠ []) as Hparts by discriminate.
  assert (Z.of_nat (length islands) < 2 ^ 64) as Hfew
    by (vm_compute; reflexivity).
  split; [reflexivity|]. split; [reflexivity|]. split; [exact Hparts|].
  split; [exact Hfew|].
  destruct (assign_node_resting_bucket
              (settings EVERYWHERE) islands (replicate 3 []) stuck
              eq_refl eq_refl Hparts Hfew) as (bucket & Hrun & Hbucket & _).
  exists bucket. split; [exact Hrun|exact Hbucket].
Defined.

Lemma group_nodes_buckets_witness :
  unique_positions [dyad_a; stuck]
  ∧ length (group_nodes (settings EVERYWHERE) islands [dyad_a; stuck])
    = S (length islands).
Proof.
  assert (unique_positions [dyad_a; stuck]) as Hunique
    by (apply unique_positions_decide; vm_compute; reflexivity).
  split; [exact Hunique|].
  exact (proj1 (group_nodes_buckets
                  (settings EVERYWHERE) islands [dyad_a; stuck] Hunique)).
Defined.

Lemma merge_neighbours_witness :
  ∃ node' to_delete',
    merge_neighbours (settings EVERYWHERE) row_group
                     [position row_left; position row_right] row_middle []
    = Some (node', to_delete')
    ∧ raised row_middle node'.
Proof.
  destruct (merge_neighbours (settings EVERYWHERE) row_group
              [position row_left; position row_right] row_middle [])
    as [[node' to_delete']|] eqn:Hrun; [|vm_compute in Hrun; discriminate].
  exists node', to_delete'. split; [reflexivity|].
  exact (proj1 (merge_neighbours_marks_neighbours_within_reach
                  (settings EVERYWHERE) row_group
                  [position row_left; position row_right] row_middle node'
                  [] to_delete' Hrun)).
Defined.

Lemma grid_steps_values_witness :
  0 < 5
  ∧ ∃ values, grid_steps 0 10 5 = Some values ∧ (values = [] ↔ 10 < 0).
Proof.
  assert (0 < 5) as Hstep by lia.
  split; [exact Hstep|].
  destruct (grid_steps_values 0 10 5 Hstep)
    as (values & Hrun & _ & _ & Hempty).
  exists values. split; [exact Hrun|exact Hempty].
Defined.

Lemma generateContactPoints_adds_tips_witness :
  ∃ seeded,
    generateContactPoints bar_mesh no_collision [[]; []; []] = Some seeded
    ∧ length seeded = length ([[]; []; []] : list NodeSet).
Proof.
  destruct (generateContactPoints bar_mesh no_collision [[]; []; []])
    as [seeded|] eqn:Hrun; [|vm_compute in Hrun; discriminate].
  exists seeded. split; [reflexivity|].
  exact (proj1 (generateContactPoints_adds_tips
                  bar_mesh no_collision [[]; []; []] seeded Hrun)).
Defined.

Lemma generateContactPoints_unique_positions_witness :
  Forall unique_positions ([[]; []; []] : list NodeSet)
  ∧ ∃ seeded,
      generateContactPoints bar_mesh no_collision [[]; []; []] = Some seeded
      ∧ Forall unique_positions seeded.
Proof.
  assert (Forall unique_positions ([[]; []; []] : list NodeSet)) as Hunique
    by (apply unique_layers_decide; vm_compute; reflexivity).
  destruct (generateContactPoints bar_mesh no_collision [[]; []; []])
    as [seeded|] eqn:Hrun; [|vm_compute in Hrun; discriminate].
  split; [exact Hunique|]. exists seeded. split; [reflexivity|].
  exact (generateContactPoints_unique_positions
           bar_mesh no_collision [[]; []; []] seeded Hunique Hrun).
Defined.

Lemma generateContactPoints_needs_positive_spread_witness :
  point_spread still_mesh ≤ 0
  ∧ generateContactPoints still_mesh no_collision [[]; []; []] = None.
Proof.
  assert (point_spread still_mesh ≤ 0) as Hspread by (simpl; lia).
  split; [exact Hspread|].
  exact (generateContactPoints_needs_positive_spread
           still_mesh no_collision [[]; []; []] Hspread).
Defined.

Lemma generateContactPoints_short_mesh_witness :
  0 < point_spread short_mesh
  ∧ (length (overhang_areas short_mesh)
     ≤ S (z_distance_top_layers short_mesh))%nat
  ∧ generateContactPoints short_mesh no_collision [[]; []] = Some [[]; []].
Proof.
  assert (0 < point_spread short_mesh) as Hspread by (simpl; lia).
  assert (length (overhang_areas short_mesh)
          ≤ S (z_distance_top_layers short_mesh))%nat as Hshort
    by (simpl; lia).
  split; [exact Hspread|]. split; [exact Hshort|].
  exact (generateContactPoints_short_mesh
           short_mesh no_collision [[]; []] Hspread Hshort).
Defined.

Lemma seed_overhang_part_leaves_node_witness :
  no_collision !! 1%nat = Some []
  ∧ ∃ seeded nodes' p,
      seed_overhang_part bar_mesh no_collision bar_grid 1 [[]; []] bar
      = Some seeded
      ∧ seeded !! 1%nat = Some nodes'
      ∧ is_Some (set_find nodes' p).
Proof.
  split; [reflexivity|].
  destruct (seed_overhang_part bar_mesh no_collision bar_grid 1 [[]; []] bar)
    as [seeded|] eqn:Hrun; [|vm_compute in Hrun; discriminate].
  destruct (seed_overhang_part_leaves_node
              bar_mesh no_collision bar_grid 1 bar [] [[]; []] seeded
              eq_refl Hrun) as (nodes' & p & Hnodes & Hfound & _).
  exists seeded, nodes', p. split; [reflexivity|].
  split; [exact Hnodes|exact Hfound].
Defined.

Lemma drawCircles_layerwise_witness :
  ∃ layers' filled',
    drawCircles floors no_outlines notched_collision drawn_layers
                (blank_layers, -1) = Some (layers', filled')
    ∧ length layers' = length blank_layers.
Proof.
  destruct (drawCircles floors no_outlines notched_collision drawn_layers
                        (blank_layers, -1)) as [[layers' filled']|] eqn:Hrun;
    [|vm_compute in Hrun; discriminate].
  exists layers', filled'. split; [reflexivity|].
  exact (proj1 (proj2 (drawCircles_layerwise
                         floors no_outlines notched_collision drawn_layers
                         blank_layers (-1) layers' filled' Hrun))).
Defined.

Lemma drawCircles_appends_parts_witness :
  ∃ layers' filled' out' drawn,
    drawCircles floors no_outlines notched_collision drawn_layers
                (blank_layers, -1) = Some (layers', filled')
    ∧ layers' !! 1%nat = Some out'
    ∧ support_infill_parts out' = support_infill_parts blank_layer ++ drawn.
Proof.
  destruct (drawCircles floors no_outlines notched_collision drawn_layers
                        (blank_layers, -1)) as [[layers' filled']|] eqn:Hrun;
    [|vm_compute in Hrun; discriminate].
  destruct (drawCircles_appends_parts
              floors no_outlines notched_collision drawn_layers
              blank_layers (-1) layers' filled' Hrun 1%nat blank_layer eq_refl)
    as (out' & drawn & Hout & Hparts & _).
  exists layers', filled', out', drawn. split; [reflexivity|].
  split; [exact Hout|exact Hparts].
Defined.

Lemma drawCircles_appends_floor_witness :
  ∃ layers' filled' out' added,
    drawCircles floors no_outlines notched_collision drawn_layers
                (blank_layers, -1) = Some (layers', filled')
    ∧ layers' !! 1%nat = Some out'
    ∧ support_bottom out' = support_bottom blank_layer ++ added.
Proof.
  destruct (drawCircles floors no_outlines notched_collision drawn_layers
                        (blank_layers, -1)) as [[layers' filled']|] eqn:Hrun;
    [|vm_compute in Hrun; discriminate].
  destruct (drawCircles_appends_floor
              floors no_outlines notched_collision drawn_layers
              blank_layers (-1) layers' filled' Hrun 1%nat blank_layer eq_refl)
    as (out' & added & Hout & Hfloor & _).
  exists layers', filled', out', added. split; [reflexivity|].
  split; [exact Hout|exact Hfloor].
Defined.

Lemma drawCircles_max_filled_layer_witness :
  ∃ layers' filled',
    drawCircles floors no_outlines notched_collision drawn_layers
                (blank_layers, -1) = Some (layers', filled')
    ∧ -1 ≤ filled'.
Proof.
  destruct (drawCircles floors no_outlines notched_collision drawn_layers
                        (blank_layers, -1)) as [[layers' filled']|] eqn:Hrun;
    [|vm_compute in Hrun; discriminate].
  exists layers', filled'. split; [reflexivity|].
  exact (proj1 (drawCircles_max_filled_layer
                  floors no_outlines notched_collision drawn_layers
                  blank_layers (-1) layers' filled' Hrun)).
Defined.

Lemma drawCircles_zero_skip_height_witness :
  support_bottom_enable stalled_floors = true
  ∧ support_bottom_height_layers stalled_floors ≠ 0%nat
  ∧ support_interface_skip_layers stalled_floors = 0%nat
  ∧ drawn_layers ≠ []
  ∧ drawCircles stalled_floors no_outlines notched_collision drawn_layers
                (blank_layers, -1) = None.
Proof.
  assert (support_bottom_height_layers stalled_floors ≠ 0%nat) as Hheight
    by discriminate.
  assert (drawn_layers ≠ []) as Hnodes by discriminate.
  split; [reflexivity|]. split; [exact Hheight|]. split; [reflexivity|].
  split; [exact Hnodes|].
  exact (drawCircles_zero_skip_height
           stalled_floors no_outlines notched_collision drawn_layers
           (blank_layers, -1) eq_refl Hheight eq_refl Hnodes).
Defined.

Lemma generateSupportAreas_without_tree_support_witness :
  support_tree_enable plain_storage = false
  ∧ Forall (λ mesh, mesh_support_tree_enable mesh = false)
           (meshes plain_storage)
  ∧ generateSupportAreas (settings EVERYWHERE) render_settings 0 no_outlines
                         [] plain_storage = Some plain_storage.
Proof.
  assert (Forall (λ mesh, mesh_support_tree_enable mesh = false)
                 (meshes plain_storage)) as Hmeshes
    by (repeat constructor).
  split; [reflexivity|]. split; [exact Hmeshes|].
  exact (generateSupportAreas_without_tree_support
           (settings EVERYWHERE) render_settings 0 no_outlines []
           plain_storage eq_refl Hmeshes).
Defined.

Lemma generateSupportAreas_without_layers_witness :
  use_tree_support empty_storage = true
  ∧ supportLayers empty_storage = []
  ∧ generateSupportAreas (settings EVERYWHERE) render_settings 0 no_outlines
                         [] empty_storage = None.
Proof.
  split; [reflexivity|]. split; [reflexivity|].
  exact (generateSupportAreas_without_layers
           (settings EVERYWHERE) render_settings 0 no_outlines []
           empty_storage eq_refl eq_refl).
Defined.

Lemma area_models_defined_witness :
  (1 ≤ 3)%nat
  ∧ ∃ model_avoidance model_internal_guide,
      propagateCollisionAreas (settings EVERYWHERE) 3
        (collisionAreas (settings EVERYWHERE) 0 3 no_outlines [] []) []
      = Some model_avoidance
      ∧ internal_guide
          (collisionAreas (settings EVERYWHERE) 0 3 no_outlines [] [])
          model_avoidance
        = Some model_internal_guide.
Proof.
  assert (1 ≤ 3)%nat as Hlayers by lia.
  split; [exact Hlayers|].
  destruct (area_models_defined (settings EVERYWHERE) 0 no_outlines [] 3
                                Hlayers)
    as (model_avoidance & model_internal_guide & Havoidance & Hguide & _).
  exists model_avoidance, model_internal_guide.
  split; [exact Havoidance|exact Hguide].
Defined.

Lemma generateSupportAreas_frame_witness :
  ∃ storage',
    generateSupportAreas (settings EVERYWHERE) render_settings 0 no_outlines
                         [] bar_storage = Some storage'
    ∧ meshes storage' = meshes bar_storage
    ∧ length (supportLayers storage') = length (supportLayers bar_storage).
Proof.
  destruct (generateSupportAreas (settings EVERYWHERE) render_settings 0
                                 no_outlines [] bar_storage)
    as [storage'|] eqn:Hrun; [|vm_compute in Hrun; discriminate].
  destruct (generateSupportAreas_frame
              (settings EVERYWHERE) render_settings 0 no_outlines []
              bar_storage storage' Hrun) as (_ & Hmeshes & Hlen & _).
  exists storage'. split; [reflexivity|]. split; [exact Hmeshes|exact Hlen].
Defined.
End FurtherExamples.
